(** * Real-time audio streaming core of the Virtual Banking Assistant

    A shallow embedding of the browser-side audio engine:

    - [Js]              the fragment of JavaScript number semantics the code uses;
    - [Base64]          the platform functions [btoa] and [atob];
    - [AudioProcessor]  the playback worklet of [public/audio-processor.js];
    - [Content]         the PCM codec, the capture callback and the WebSocket
                        message handler of [src/Content.js];
    - [Fixture]         sample data for the concrete runs.

    The worklet and the component talk through a message port.  A message
    is a record whose [type] is a string, compared as the handlers compare
    it, and a posted message is delivered where it is posted.

    Samples live in [Float32Array]s.  A finite sample is modelled by the
    rational number it denotes.  Every product the codec forms is exact in
    binary64: a binary32 significand (24 bits) times [0x8000] or [0x7FFF]
    (at most 15 bits) fits the 53 bits of a double, and [int16 / 32768.0]
    is a 16-bit integer scaled by a power of two, which binary32 stores
    without rounding.  Signed zero is not distinguished: both zeros convert
    to the integer 0 and compare equal. *)

From Stdlib Require Import ZArith QArith Qabs Qround String Ascii Bool Lia Lqa List.
Import ListNotations.
Close Scope Q_scope.

(* ===================================================================== *)
(** * JavaScript numbers *)
(* ===================================================================== *)

Module Js.

Inductive number : Type :=
| Fin (q : Q)
| Inf (negative : bool)
| NaN.

(** [a < b] *)
Definition lt (a b : number) : bool :=
  match a, b with
  | NaN, _ | _, NaN => false
  | Fin x, Fin y => negb (Qle_bool y x)
  | Fin _, Inf negative => negb negative
  | Inf negative, Fin _ => negative
  | Inf n1, Inf n2 => n1 && negb n2
  end.

(** [Math.min(a, b)] and [Math.max(a, b)]: NaN is contagious. *)
Definition Math_min (a b : number) : number :=
  match a, b with
  | NaN, _ | _, NaN => NaN
  | _, _ => if lt b a then b else a
  end.

Definition Math_max (a b : number) : number :=
  match a, b with
  | NaN, _ | _, NaN => NaN
  | _, _ => if lt a b then b else a
  end.

(** [a * b] *)
Definition mul (a b : number) : number :=
  match a, b with
  | NaN, _ | _, NaN => NaN
  | Fin x, Fin y => Fin (x * y)%Q
  | Inf n, Fin y | Fin y, Inf n =>
      if Qeq_bool y 0%Q then NaN else Inf (xorb n (negb (Qle_bool 0%Q y)))
  | Inf n1, Inf n2 => Inf (xorb n1 n2)
  end.

(** Truncation toward zero of a rational (the integer part kept by the
    integer conversions). *)
Definition trunc (q : Q) : Z := Z.quot (Qnum q) (Zpos (Qden q)).

(** [ToInt16]: the conversion applied when a number is stored into an
    [Int16Array].  NaN and the infinities become 0; a finite number is
    truncated toward zero and reduced modulo 2^16 into the signed range. *)
Definition ToInt16 (x : number) : Z :=
  match x with
  | Fin q =>
      let int16bit := (trunc q mod 65536)%Z in
      if (32768 <=? int16bit)%Z then (int16bit - 65536)%Z else int16bit
  | Inf _ | NaN => 0%Z
  end.

End Js.

(* ===================================================================== *)
(** * Base64: the platform functions [btoa] and [atob] *)
(* ===================================================================== *)

Module Base64.

Definition alphabet : string :=
  "ABCDEFGHIJKLMNOPQRSTUVWXYZabcdefghijklmnopqrstuvwxyz0123456789+/".

(** The character of a 6-bit value. *)
Definition b64char (v : Z) : ascii :=
  match String.get (Z.to_nat v) alphabet with
  | Some c => c
  | None => "="%char
  end.

(** The 6-bit value of a character of the alphabet. *)
Definition b64val (c : ascii) : option Z :=
  let n := Z.of_N (N_of_ascii c) in
  if (65 <=? n)%Z && (n <=? 90)%Z then Some (n - 65)%Z
  else if (97 <=? n)%Z && (n <=? 122)%Z then Some (n - 71)%Z
  else if (48 <=? n)%Z && (n <=? 57)%Z then Some (n + 4)%Z
  else if (n =? 43)%Z then Some 62%Z
  else if (n =? 47)%Z then Some 63%Z
  else None.

(** Bytes regrouped into 6-bit values, three bytes at a time. *)
Fixpoint sextets (bytes : list Z) : list Z :=
  match bytes with
  | a :: b :: c :: rest =>
      (a / 4 :: (a mod 4) * 16 + b / 16 :: (b mod 16) * 4 + c / 64 :: c mod 64
         :: sextets rest)%Z
  | [a; b] => [a / 4; (a mod 4) * 16 + b / 16; (b mod 16) * 4]%Z
  | [a] => [a / 4; (a mod 4) * 16]%Z
  | [] => []
  end.

Definition padding (byteLength : nat) : list ascii :=
  match (byteLength mod 3)%nat with
  | 1%nat => ["="; "="]%char
  | 2%nat => ["="]%char
  | _ => []
  end.

Definition is_byte (b : Z) : bool := (0 <=? b)%Z && (b <=? 255)%Z.

(** The ranges of a byte and of a 6-bit value. *)
Definition byte (b : Z) : Prop := (0 <= b <= 255)%Z.
Definition sextet (v : Z) : Prop := (0 <= v < 64)%Z.

(** [btoa(binaryString)]: the argument is given by its character codes.
    A code above 255 raises [InvalidCharacterError] ([None]). *)
Definition btoa (codes : list Z) : option string :=
  if forallb is_byte codes
  then Some (string_of_list_ascii
               (map b64char (sextets codes) ++ padding (length codes)))
  else None.

Definition is_ascii_whitespace (c : ascii) : bool :=
  let n := N_of_ascii c in
  (n =? 9)%N || (n =? 10)%N || (n =? 12)%N || (n =? 13)%N || (n =? 32)%N.

Definition is_pad (c : ascii) : bool := Ascii.eqb c "=".

(** [data] without its last character, when that character is [=]. *)
Definition remove_trailing_pad (data : list ascii) : option (list ascii) :=
  match rev data with
  | c :: r => if is_pad c then Some (rev r) else None
  | [] => None
  end.

(** Removal of one or two trailing [=] when the length is a multiple of 4. *)
Definition strip_padding (data : list ascii) : list ascii :=
  if (length data mod 4 =? 0)%nat then
    match remove_trailing_pad data with
    | Some data1 =>
        match remove_trailing_pad data1 with
        | Some data2 => data2
        | None => data1
        end
    | None => data
    end
  else data.

Fixpoint values (data : list ascii) : option (list Z) :=
  match data with
  | [] => Some []
  | c :: rest =>
      match b64val c, values rest with
      | Some v, Some vs => Some (v :: vs)
      | _, _ => None
      end
  end.

(** 6-bit values regrouped into bytes; the bits left over at the end are
    discarded. *)
Fixpoint octets (vs : list Z) : list Z :=
  match vs with
  | a :: b :: c :: d :: rest =>
      (a * 4 + b / 16 :: (b mod 16) * 16 + c / 4 :: (c mod 4) * 64 + d
         :: octets rest)%Z
  | [a; b; c] => [a * 4 + b / 16; (b mod 16) * 16 + c / 4]%Z
  | [a; b] => [a * 4 + b / 16]%Z
  | _ => []
  end.

(** [atob(data)], the forgiving base64 decoder of the platform: ASCII
    whitespace is removed, padding is optional, and a length of 1 modulo 4
    or a character outside the alphabet raises [InvalidCharacterError]
    ([None]).  The result is the list of character codes of the binary
    string. *)
Definition atob (data : string) : option (list Z) :=
  let data := filter (fun c => negb (is_ascii_whitespace c))
                     (list_ascii_of_string data) in
  let data := strip_padding data in
  if (length data mod 4 =? 1)%nat then None
  else match values data with
       | Some vs => Some (octets vs)
       | None => None
       end.

End Base64.


(* ===================================================================== *)
(** * The playback worklet: [public/audio-processor.js] *)
(* ===================================================================== *)

Module AudioProcessor.

(** [event.data] of a message received on the processor's port. *)
Record message : Type := { type : string; audio : list Js.number }.

(** The fields [this.buffer] and [this.position]. *)
Record state : Type := { buffer : list Js.number; position : nat }.

Definition constructor : state := {| buffer := []; position := 0 |}.

(** [this.port.onmessage] *)
Definition onmessage (this : state) (data : message) : state :=
  if String.eqb (type data) "data" then
    {| buffer := buffer this ++ audio data; position := position this |}
  else if String.eqb (type data) "clear" then
    {| buffer := []; position := 0 |}
  else this.

(** What one call of [process] leaves behind: the processor, the output
    block [outputs[0][0]], the messages posted to the main thread and the
    returned boolean. *)
Record result : Type :=
  { next : state; output : list Js.number; posted : list string; alive : bool }.

Section Process.

(** The global [sampleRate] of the worklet scope, a whole number of
    hertz. *)
Variable sampleRate : Z.

(** [process(inputs, outputs, parameters)]; [output] is the block as the
    audio system hands it over.  A read past the end of [this.buffer] would
    yield [undefined], stored as NaN. *)
Definition process (this : state) (output : list Js.number) : result :=
  if (Z.of_nat (length (buffer this)) - Z.of_nat (position this)
        <? Z.of_nat (length output))%Z
  then {| next := this; output := output; posted := ["needData"%string];
          alive := true |}
  else
    let output' :=
      map (fun i => nth (position this + i) (buffer this) Js.NaN)
          (seq 0 (length output)) in
    let position' := position this + length output in
    if (sampleRate * 2 <? Z.of_nat position')%Z
    then {| next := {| buffer := skipn position' (buffer this); position := 0 |};
            output := output'; posted := []; alive := true |}
    else {| next := {| buffer := buffer this; position := position' |};
            output := output'; posted := []; alive := true |}.

(** A device quantum asking for [n] samples: the audio system passes a
    zero-filled block of length [n]. *)
Definition pull (this : state) (n : nat) : result :=
  process this (repeat (Js.Fin 0%Q) n).

(** The three operations of the jitter buffer, as the worklet receives
    them. *)
Inductive op : Type :=
| Append (samples : list Js.number)
| Pull (n : nat)
| Flush.

Definition step (this : state) (o : op) : result :=
  match o with
  | Append samples =>
      {| next := onmessage this {| type := "data"; audio := samples |};
         output := []; posted := []; alive := true |}
  | Pull n => pull this n
  | Flush =>
      {| next := onmessage this {| type := "clear"; audio := [] |};
         output := []; posted := []; alive := true |}
  end.

(** A run of operations: the final processor, the blocks handed to the
    device (one per operation, empty for [Append] and [Flush]) and all
    messages posted. *)
Fixpoint run (this : state) (ops : list op)
  : state * list (list Js.number) * list string :=
  match ops with
  | [] => (this, [], [])
  | o :: ops' =>
      let r := step this o in
      let '(final, blocks, msgs) := run (next r) ops' in
      (final, output r :: blocks, posted r ++ msgs)
  end.

End Process.

(** The samples appended and not yet played. *)
Definition unread (this : state) : list Js.number :=
  skipn (position this) (buffer this).

(** read cursor <= logical length *)
Definition cursor_in_range (this : state) : Prop :=
  position this <= length (buffer this).

(** The worklet seen through its unread samples only: what an operation
    does to the queue of unread samples, the block it hands out and the
    messages it posts. *)
Definition queue_step (u : list Js.number) (o : op)
  : list Js.number * list Js.number * list string :=
  match o with
  | Append samples => (u ++ samples, [], [])
  | Pull n =>
      if (length u <? n)%nat
      then (u, repeat (Js.Fin 0%Q) n, ["needData"%string])
      else (skipn n u, firstn n u, [])
  | Flush => ([], [], [])
  end.

Fixpoint queue_run (u : list Js.number) (ops : list op)
  : list Js.number * list (list Js.number) * list string :=
  match ops with
  | [] => (u, [], [])
  | o :: ops' =>
      let '(u1, block, msgs1) := queue_step u o in
      let '(final, blocks, msgs) := queue_run u1 ops' in
      (final, block :: blocks, msgs1 ++ msgs)
  end.

(** All the samples a run of operations appends, in order. *)
Definition appended (ops : list op) : list Js.number :=
  flat_map (fun o => match o with Append samples => samples | _ => [] end) ops.

End AudioProcessor.

(* ===================================================================== *)
(** * The main-thread component: [src/Content.js] *)
(* ===================================================================== *)

Module Content.

Definition SAMPLE_RATE : Z := 16000.

(** ** PCM codec *)

Definition floatToPcm16 (input : list Js.number) : list Z :=
  map (fun x =>
         let s := Js.Math_max (Js.Fin (-1 # 1)%Q) (Js.Math_min (Js.Fin 1%Q) x) in
         Js.ToInt16 (if Js.lt s (Js.Fin 0%Q)
                     then Js.mul s (Js.Fin 32768%Q)   (* 0x8000 *)
                     else Js.mul s (Js.Fin 32767%Q))) (* 0x7FFF *)
      input.

(** The range of a 16-bit signed integer. *)
Definition int16 (v : Z) : Prop := (-32768 <= v <= 32767)%Z.

(** The signed reading of a 16-bit pattern. *)
Definition signed16 (u : Z) : Z :=
  if (32768 <=? u)%Z then (u - 65536)%Z else u.

(** [dataView.getInt16(byteOffset, true)]: low byte first; [None] is the
    RangeError of a read past the end. *)
Definition getInt16 (dataView : list Z) (byteOffset : nat) : option Z :=
  match nth_error dataView byteOffset, nth_error dataView (S byteOffset) with
  | Some lo, Some hi => Some (signed16 (lo + 256 * hi))
  | _, _ => None
  end.

(** The loop of [pcm16ToFloat] from index [i], [count] iterations left. *)
Fixpoint pcm16ToFloat_loop (dataView : list Z) (i count : nat)
  : option (list Js.number) :=
  match count with
  | O => Some []
  | S count' =>
      match getInt16 dataView (i * 2) with
      | Some int16 =>
          match pcm16ToFloat_loop dataView (S i) count' with
          | Some rest => Some (Js.Fin (int16 # 32768)%Q :: rest)
          | None => None
          end
      | None => None
      end
  end.

(** [pcm16ToFloat(buffer)]: [new Float32Array(buffer.byteLength / 2)] drops
    the fraction of its length argument. *)
Definition pcm16ToFloat (buffer : list Z) : option (list Js.number) :=
  pcm16ToFloat_loop buffer 0 (length buffer / 2).

(** [view.setInt16(index * 2, value, true)]: the two bytes written. *)
Definition setInt16 (value : Z) : list Z :=
  [value mod 256; (value mod 65536) / 256]%Z.

(** The [ArrayBuffer] filled by [pcm16.forEach]. *)
Definition pcm16Bytes (pcm16 : list Z) : list Z := flat_map setInt16 pcm16.

(** ** The quantisation rule, sample by sample *)

(** A finite sample clamped to [-1, 1]. *)
Definition clamp (s : Q) : Q :=
  if Qle_bool 1 s then 1%Q else if Qle_bool s (-1 # 1) then (-1 # 1)%Q else s.

(** Scaling followed by truncation toward zero: the floor of a scaled
    non-negative sample, the ceiling of a scaled negative one. *)
Definition quantize_toward_zero (s : Q) : Z :=
  let c := clamp s in
  if Qle_bool 0 c then Qfloor (c * 32767) else Qceiling (c * 32768).

(** The 16-bit value of one sample of a frame: a finite sample is clamped,
    scaled and truncated toward zero; the infinities saturate like the
    samples beyond full scale, and NaN gives 0. *)
Definition pcm_value (x : Js.number) : Z :=
  match x with
  | Js.Fin s => quantize_toward_zero s
  | Js.Inf negative => if negative then (-32768)%Z else 32767%Z
  | Js.NaN => 0%Z
  end.

(** A 16-bit value as two bytes, low byte first, in two's complement. *)
Definition little_endian (v : Z) : list Z := [v mod 256; v / 256 mod 256]%Z.

(** Rounding to the nearest integer, halves upward, as [Math.round]. *)
Definition round (x : Q) : Z := Qfloor (x + (1 # 2)).

(** The rule in the words of the specification: [round(s * 32767)] for
    [s >= 0] and [round(s * 32768)] for [s < 0], after clamping. *)
Definition quantize_round (s : Q) : Z :=
  let c := clamp s in
  if Qle_bool 0 c then round (c * 32767) else round (c * 32768).

(** [dequantize(quantize([s]))] through the byte layout of the wire. *)
Definition loopback (s : Q) : option (list Js.number) :=
  pcm16ToFloat (pcm16Bytes (floatToPcm16 [Js.Fin s])).

(** ** Component state *)

Inductive readyState : Type := CONNECTING | OPEN | CLOSING | CLOSED.

Definition is_OPEN (r : readyState) : bool :=
  match r with OPEN => true | _ => false end.

(** The WebSocket behind [wsRef.current], with the messages handed to
    [send]. *)
Record WebSocket : Type := { ready : readyState; sent : list string }.

Record state : Type :=
  { messages : list (bool * string);                   (* isMine, text *)
    isTalking : bool;
    audioWorkletNode : option AudioProcessor.state;    (* audioWorkletNodeRef.current *)
    ws : option WebSocket;                             (* wsRef.current *)
    console : list string }.

Definition setTalking (st : state) (b : bool) : state :=
  {| messages := messages st; isTalking := b;
     audioWorkletNode := audioWorkletNode st; ws := ws st;
     console := console st |}.

Definition console_log (st : state) (line : string) : state :=
  {| messages := messages st; isTalking := isTalking st;
     audioWorkletNode := audioWorkletNode st; ws := ws st;
     console := console st ++ [line] |}.

(** [audioWorkletNodeRef.current?.port.postMessage(m)]; the port delivers
    in order, and the delivery is taken at the point of posting. *)
Definition postMessage (st : state) (m : AudioProcessor.message) : state :=
  {| messages := messages st; isTalking := isTalking st;
     audioWorkletNode :=
       option_map (fun p => AudioProcessor.onmessage p m) (audioWorkletNode st);
     ws := ws st; console := console st |}.

(** ** Capture: [processor.onaudioprocess] *)

(** [None]: an exception escapes the callback. *)
Definition onaudioprocess (st : state) (input : list Js.number) : option state :=
  let pcm16 := floatToPcm16 input in
  let bytes := pcm16Bytes pcm16 in
  match Base64.btoa bytes with
  | None => None
  | Some base64 =>
      match ws st with
      | Some w =>
          if is_OPEN (ready w)
          then Some {| messages := messages st; isTalking := isTalking st;
                       audioWorkletNode := audioWorkletNode st;
                       ws := Some {| ready := ready w;
                                     sent := sent w ++ [base64] |};
                       console := console st |}
          else Some st
      | None => Some st
      end
  end.

(** ** Downlink: [wsRef.current.onmessage] *)

(** [JSON.parse(event.data)] *)
Record chunk : Type := { event : string; data : string; speaker : string }.

(** [isTalking_closure] is the value of [isTalking] captured by the effect
    that installed the handler. *)
Definition ws_onmessage (isTalking_closure : bool) (st : state) (c : chunk)
  : state :=
  if String.eqb (event c) "stop" then
    let st := console_log st "Interruption" in
    let st := postMessage st {| AudioProcessor.type := "stop";
                                AudioProcessor.audio := [] |} in
    setTalking st false
  else if String.eqb (event c) "media" then
    match Base64.atob (data c) with
    | None => console_log st "Error processing audio data:"
    | Some bytes =>
        match pcm16ToFloat bytes with
        | None => console_log st "Error processing audio data:"
        | Some float32Array =>
            if (0 <? length float32Array)%nat then
              let st := postMessage st {| AudioProcessor.type := "data";
                                          AudioProcessor.audio := float32Array |} in
              if negb isTalking_closure then setTalking st true else st
            else st
        end
    end
  else if String.eqb (event c) "text" then
    {| messages := messages st ++ [(String.eqb (speaker c) "user", data c)];
       isTalking := isTalking st; audioWorkletNode := audioWorkletNode st;
       ws := ws st; console := console st |}
  else st.

(** [audioWorkletNodeRef.current.port.onmessage] *)
Definition port_onmessage (st : state) (data : string) : state :=
  if String.eqb data "needData" then setTalking st false else st.

(** One device quantum seen from the component: the worklet processes a
    block of [n] samples and its messages reach the main thread. *)
Definition quantum (st : state) (n : nat) : state * list Js.number :=
  match audioWorkletNode st with
  | Some p =>
      let r := AudioProcessor.pull SAMPLE_RATE p n in
      (fold_left port_onmessage (AudioProcessor.posted r)
         {| messages := messages st; isTalking := isTalking st;
            audioWorkletNode := Some (AudioProcessor.next r);
            ws := ws st; console := console st |},
       AudioProcessor.output r)
  | None => (st, [])
  end.

(** The session is engaged: the socket is open and the worklet exists. *)
Definition Active (st : state) : Prop :=
  (exists w, ws st = Some w /\ ready w = OPEN) /\
  (exists p, audioWorkletNode st = Some p).

(** Two component states that differ at most in their console. *)
Definition same_but_console (a b : state) : Prop :=
  messages a = messages b /\ isTalking a = isTalking b /\
  audioWorkletNode a = audioWorkletNode b /\ ws a = ws b.

End Content.

(* ===================================================================== *)
(** * Sample data for the concrete runs *)
(* ===================================================================== *)

Module Fixture.

Definition half : Js.number := Js.Fin (1 # 2)%Q.
Definition quarter : Js.number := Js.Fin (1 # 4)%Q.
Definition silence : Js.number := Js.Fin 0%Q.

(** An engaged session: the socket is open and the worklet holds [buffer]
    with its cursor at the start. *)
Definition engaged (talking : bool) (buffer : list Js.number) : Content.state :=
  {| Content.messages := []; Content.isTalking := talking;
     Content.audioWorkletNode :=
       Some {| AudioProcessor.buffer := buffer; AudioProcessor.position := 0 |};
     Content.ws := Some {| Content.ready := Content.OPEN; Content.sent := [] |};
     Content.console := [] |}.

Definition envelope (kind payload : string) : Content.chunk :=
  {| Content.event := kind; Content.data := payload; Content.speaker := "" |}.



End Fixture.

(* ===================================================================== *)
(** * Proof tools *)
(* ===================================================================== *)

(** Goals about quotients and remainders by constants. *)
Ltac div_mod_lia := Z.div_mod_to_equations; lia.

(** A goal over the natural numbers below 64, settled value by value. *)
Ltac below_64 n :=
  do 64 (destruct n as [|n]; [reflexivity|]); lia.

(* ===================================================================== *)
(** * The playback jitter buffer *)
(* ===================================================================== *)

Section JitterBuffer.

Import AudioProcessor.

Variable sampleRate : Z.

Lemma read_block (d : Js.number) (l : list Js.number) :
  forall n, n <= length l ->
    map (fun i => nth i l d) (seq 0 n) = firstn n l.
Proof.
  induction l as [|x l IH]; intros n Hn; simpl in Hn.
  - assert (n = 0) by lia; subst; reflexivity.
  - destruct n as [|n]; [reflexivity|].
    simpl. f_equal. rewrite <- seq_shift, map_map. apply IH; lia.
Qed.

Lemma read_at_cursor (d : Js.number) (buf : list Js.number) (pos n : nat) :
  pos + n <= length buf ->
  map (fun i => nth (pos + i) buf d) (seq 0 n) = firstn n (skipn pos buf).
Proof.
  intros H.
  rewrite <- (read_block d (skipn pos buf)) by (rewrite length_skipn; lia).
  apply map_ext; intros i.
  rewrite <- (firstn_skipn pos buf) at 1.
  assert (Hl : length (firstn pos buf) = pos) by (rewrite length_firstn; lia).
  rewrite <- Hl at 1. apply app_nth2_plus.
Qed.

Lemma unread_length (this : state) :
  cursor_in_range this ->
  length (unread this) = length (buffer this) - position this.
Proof. intros _. unfold unread. apply length_skipn. Qed.

(** The test at the head of [process], read on the unread samples. *)
Lemma starved_iff (this : state) (n : nat) :
  cursor_in_range this ->
  (Z.of_nat (length (buffer this)) - Z.of_nat (position this) <? Z.of_nat n)%Z
  = (length (unread this) <? n)%nat.
Proof.
  intros Hc. rewrite unread_length by assumption. unfold cursor_in_range in Hc.
  destruct (Z.ltb_spec (Z.of_nat (length (buffer this)) - Z.of_nat (position this))
                       (Z.of_nat n));
    destruct (Nat.ltb_spec (length (buffer this) - position this) n);
    (reflexivity || lia).
Qed.

(** The starved branch returns before anything is touched. *)
Lemma process_starved (this : state) (block : list Js.number) :
  (Z.of_nat (length (buffer this)) - Z.of_nat (position this)
     < Z.of_nat (length block))%Z ->
  process sampleRate this block =
  {| next := this; output := block; posted := ["needData"%string];
     alive := true |}.
Proof.
  intros H. unfold process. apply Z.ltb_lt in H. rewrite H. reflexivity.
Qed.

(** The served branch: the block read, the unread samples left, the
    cursor. *)
Lemma process_served (this : state) (block : list Js.number) :
  position this + length block <= length (buffer this) ->
  let r := process sampleRate this block in
  output r = firstn (length block) (unread this) /\
  unread (next r) = skipn (length block) (unread this) /\
  posted r = [] /\
  cursor_in_range (next r) /\
  ((sampleRate * 2 < Z.of_nat (position this + length block))%Z ->
     position (next r) = 0 /\
     buffer (next r) = skipn (position this + length block) (buffer this)) /\
  (~ (sampleRate * 2 < Z.of_nat (position this + length block))%Z ->
     position (next r) = position this + length block /\
     buffer (next r) = buffer this).
Proof.
  intros H. unfold process.
  destruct (Z.ltb_spec (Z.of_nat (length (buffer this)) - Z.of_nat (position this))
                       (Z.of_nat (length block))) as [Hlt|_]; [lia|].
  rewrite read_at_cursor by assumption.
  unfold unread, cursor_in_range.
  destruct (Z.ltb_spec (sampleRate * 2)
                       (Z.of_nat (position this + length block))) as [Hc|Hc];
    simpl; rewrite skipn_skipn, (Nat.add_comm (length block));
    repeat split; intros; try reflexivity; try lia; try contradiction.
Qed.

Lemma onmessage_data (this : state) (samples : list Js.number) :
  onmessage this {| type := "data"; audio := samples |}
  = {| buffer := buffer this ++ samples; position := position this |}.
Proof. reflexivity. Qed.

Lemma onmessage_clear (this : state) :
  onmessage this {| type := "clear"; audio := [] |} = constructor.
Proof. reflexivity. Qed.

Lemma onmessage_cursor (this : state) (m : message) :
  cursor_in_range this -> cursor_in_range (onmessage this m).
Proof.
  unfold onmessage, cursor_in_range. intros H.
  destruct (String.eqb (type m) "data"); simpl.
  - rewrite length_app. lia.
  - destruct (String.eqb (type m) "clear"); simpl; [lia | assumption].
Qed.

Lemma process_cursor (this : state) (block : list Js.number) :
  cursor_in_range this -> cursor_in_range (next (process sampleRate this block)).
Proof.
  intros H.
  destruct (Z.lt_ge_cases
              (Z.of_nat (length (buffer this)) - Z.of_nat (position this))
              (Z.of_nat (length block))) as [Hlt|Hge].
  - rewrite process_starved by assumption. assumption.
  - apply process_served. lia.
Qed.

Lemma unread_append (this : state) (samples : list Js.number) :
  cursor_in_range this ->
  unread (onmessage this {| type := "data"; audio := samples |})
  = unread this ++ samples.
Proof.
  intros H. rewrite onmessage_data. unfold unread; simpl.
  rewrite skipn_app. replace (position this - length (buffer this)) with 0
    by (unfold cursor_in_range in H; lia).
  reflexivity.
Qed.

(** Every operation acts on the unread samples as [queue_step] says. *)
Lemma step_queue (this : state) (o : op) :
  cursor_in_range this ->
  let r := step sampleRate this o in
  cursor_in_range (next r) /\
  (unread (next r), output r, posted r) = queue_step (unread this) o.
Proof.
  intros Hc. destruct o as [samples|n|]; simpl.
  - split; [apply onmessage_cursor; assumption|].
    rewrite unread_append by assumption. reflexivity.
  - split; [apply process_cursor; assumption|].
    unfold pull. rewrite <- (starved_iff this n Hc).
    destruct (Z.ltb_spec (Z.of_nat (length (buffer this)) - Z.of_nat (position this))
                         (Z.of_nat n)) as [Hlt|Hge].
    + rewrite process_starved by (rewrite repeat_length; assumption).
      reflexivity.
    + unfold cursor_in_range in Hc.
      destruct (process_served this (repeat (Js.Fin 0%Q) n)) as (Ho & Hu & Hp & _).
      { rewrite repeat_length. lia. }
      rewrite repeat_length in Ho, Hu. rewrite Ho, Hu, Hp. reflexivity.
  - split; [apply onmessage_cursor; assumption|]. reflexivity.
Qed.

Lemma run_queue (ops : list op) :
  forall this, cursor_in_range this ->
    let '(final, blocks, msgs) := run sampleRate this ops in
    cursor_in_range final /\
    (unread final, blocks, msgs) = queue_run (unread this) ops.
Proof.
  induction ops as [|o ops IH]; intros this Hc; simpl.
  - split; [assumption | reflexivity].
  - destruct (step_queue this o Hc) as [Hc' Hq].
    specialize (IH _ Hc').
    destruct (run sampleRate (next (step sampleRate this o)) ops)
      as [[final blocks] msgs].
    destruct IH as [Hf IH]. split; [assumption|].
    rewrite <- Hq. rewrite <- IH. reflexivity.
Qed.

(** Pulls whose sizes add up to what is unread hand the unread samples
    out, block after block. *)
Lemma queue_drain (sizes : list nat) :
  forall u, list_sum sizes = length u ->
    queue_run u (map Pull sizes)
    = ([], snd (fst (queue_run u (map Pull sizes))), []) /\
    concat (snd (fst (queue_run u (map Pull sizes)))) = u /\
    Forall2 (fun n block => length block = n) sizes
            (snd (fst (queue_run u (map Pull sizes)))).
Proof.
  induction sizes as [|n sizes IH]; intros u Hs; simpl in *.
  - destruct u; [|discriminate]. repeat split; constructor.
  - destruct (Nat.ltb_spec (length u) n) as [Hlt|Hge]; [lia|].
    specialize (IH (skipn n u)).
    rewrite length_skipn in IH. specialize (IH ltac:(lia)).
    destruct (queue_run (skipn n u) (map Pull sizes)) as [[final blocks] msgs].
    simpl in *. destruct IH as (Hr & Hcat & Hall).
    inversion Hr; subst. repeat split.
    + rewrite Hcat. apply firstn_skipn.
    + constructor; [rewrite length_firstn; lia | assumption].
Qed.

(** Between two operations the cursor never stays above the compaction
    bound: a served pull that moves it past the bound resets it at once. *)
Lemma cursor_below_bound (this : state) (o : op) :
  (0 <= sampleRate)%Z ->
  (Z.of_nat (position this) <= sampleRate * 2)%Z ->
  (Z.of_nat (position (next (step sampleRate this o))) <= sampleRate * 2)%Z.
Proof.
  intros Hs Hp. destruct o as [samples|n|]; unfold step, next.
  - rewrite onmessage_data; simpl; lia.
  - fold (next (pull sampleRate this n)).
    unfold pull, process. rewrite repeat_length.
    destruct (_ <? Z.of_nat n)%Z; simpl; [assumption|].
    destruct (Z.ltb_spec (sampleRate * 2) (Z.of_nat (position this + n)));
      simpl; lia.
  - rewrite onmessage_clear; simpl; lia.
Qed.

(** C8. The predicate "read cursor <= logical buffer length" holds in the
    initial state of the processor and is preserved by every message
    handled on the port (append, flush and any other message) and by every
    call of [process], whichever branch it takes (starved, served, served
    with compaction). *)
Theorem cursor_invariant :
  cursor_in_range constructor /\
  (forall this m, cursor_in_range this -> cursor_in_range (onmessage this m)) /\
  (forall this block,
      cursor_in_range this ->
      cursor_in_range (next (process sampleRate this block))).
Proof.
  split; [unfold cursor_in_range; simpl; lia|].
  split; [apply onmessage_cursor | apply process_cursor].
Qed.

(** C2 (amended). When fewer than [n] unread samples remain, [pull n]
    writes nothing: the block stays as the device supplied it (silence),
    the buffer and the cursor are unchanged and the message 'needData' is
    posted.  Otherwise the block is exactly the next [n] unread samples,
    nothing is posted, the unread samples lose those [n], and the cursor is
    advanced by [n], being reset to zero when it thereby exceeds
    [2 * sampleRate]. *)
Theorem pull_contract (this : state) (n : nat) :
  cursor_in_range this ->
  let r := pull sampleRate this n in
  (length (unread this) < n ->
     r = {| next := this; output := repeat (Js.Fin 0%Q) n;
            posted := ["needData"%string]; alive := true |}) /\
  (n <= length (unread this) ->
     output r = firstn n (unread this) /\
     length (output r) = n /\
     unread (next r) = skipn n (unread this) /\
     posted r = [] /\
     position (next r)
     = if (sampleRate * 2 <? Z.of_nat (position this + n))%Z
       then 0 else position this + n).
Proof.
  intros Hc r. subst r. unfold pull.
  pose proof (unread_length this Hc) as Hl. unfold cursor_in_range in Hc.
  split; intros Hn.
  - apply process_starved. rewrite repeat_length. lia.
  - destruct (process_served this (repeat (Js.Fin 0%Q) n))
      as (Ho & Hu & Hp & _ & Hyes & Hno).
    { rewrite repeat_length. lia. }
    rewrite repeat_length in *.
    repeat split; try assumption.
    + rewrite Ho, length_firstn. lia.
    + destruct (Z.ltb_spec (sampleRate * 2) (Z.of_nat (position this + n))) as [H|H].
      * apply Hyes; assumption.
      * apply Hno; lia.
Qed.

(** C5. From a processor with nothing unread, appending [samples] and then
    pulling blocks whose sizes add up to the number of samples appended
    hands out exactly the appended samples, in order: every block has the
    size asked for, the blocks concatenated are [samples], no pull is
    starved, and nothing is left unread. *)
Theorem append_then_pulls (this : state) (samples : list Js.number)
        (sizes : list nat) :
  position this = length (buffer this) ->
  list_sum sizes = length samples ->
  let appended := onmessage this {| type := "data"; audio := samples |} in
  let '(final, blocks, msgs) := run sampleRate appended (map Pull sizes) in
  concat blocks = samples /\
  Forall2 (fun n block => length block = n) sizes blocks /\
  msgs = [] /\
  unread final = [].
Proof.
  intros Hp Hs appended.
  assert (Hc : cursor_in_range this) by (unfold cursor_in_range; lia).
  assert (Hu : unread appended = samples).
  { subst appended. rewrite unread_append by assumption.
    unfold unread. rewrite Hp, skipn_all. reflexivity. }
  pose proof (run_queue (map Pull sizes) appended
                        (onmessage_cursor _ _ Hc)) as Hr.
  destruct (run sampleRate appended (map Pull sizes)) as [[final blocks] msgs].
  destruct Hr as [_ Hr]. rewrite Hu in Hr.
  destruct (queue_drain sizes samples Hs) as (Hq & Hcat & Hall).
  rewrite Hq in Hr. inversion Hr; subst blocks.
  repeat split; assumption.
Qed.

(** C10. A starved call of [process] returns the processor exactly as it
    was (same buffer, same cursor), leaves the output block untouched and
    posts 'needData'; hence, once more samples are appended, pulls whose
    sizes add up to everything unread hand out the samples that were
    unread at the time of the underrun followed by the new ones, in
    order. *)
Theorem underrun_keeps_samples (this : state) (block more : list Js.number)
        (sizes : list nat) :
  cursor_in_range this ->
  (Z.of_nat (length (buffer this)) - Z.of_nat (position this)
     < Z.of_nat (length block))%Z ->
  list_sum sizes = length (unread this) + length more ->
  let r := process sampleRate this block in
  next r = this /\ output r = block /\ posted r = ["needData"%string] /\
  let refilled := onmessage (next r) {| type := "data"; audio := more |} in
  let '(final, blocks, msgs) := run sampleRate refilled (map Pull sizes) in
  concat blocks = unread this ++ more /\ msgs = [] /\ unread final = [].
Proof.
  intros Hc Hlt Hs r. subst r.
  rewrite process_starved by assumption. simpl.
  repeat split.
  pose proof (run_queue (map Pull sizes) _
                (onmessage_cursor this {| type := "data"; audio := more |} Hc))
    as Hr.
  destruct (run sampleRate _ (map Pull sizes)) as [[final blocks] msgs].
  destruct Hr as [_ Hr]. rewrite unread_append in Hr by assumption.
  destruct (queue_drain sizes (unread this ++ more)) as (Hq & Hcat & _).
  { rewrite length_app. assumption. }
  rewrite Hq in Hr. inversion Hr; subst blocks.
  repeat split; assumption.
Qed.


End JitterBuffer.

(** ** Concrete runs of the jitter buffer *)

Section JitterBufferRuns.

Import AudioProcessor Fixture.

Lemma cursor_invariant_witness :
  cursor_in_range {| buffer := [half; quarter]; position := 1 |} /\
  cursor_in_range
    (next (process 16000 {| buffer := [half; quarter]; position := 1 |} [silence])).
Proof.
  assert (H : cursor_in_range {| buffer := [half; quarter]; position := 1 |})
    by (unfold cursor_in_range; simpl; lia).
  split; [exact H|].
  exact (proj2 (proj2 (cursor_invariant 16000)) _ _ H).
Defined.

(** C2, as stated, fails at the buffer holding the single sample 1/2 and a
    pull of two samples: the pull is starved and 'needData' is posted, but
    the block handed out is pure silence, neither the available sample
    padded with a zero nor the short read made of that sample. *)
Lemma pull_starved_returns_nothing :
  let this := {| buffer := [half]; position := 0 |} in
  let r := pull 16000 this 2 in
  unread this = [half] /\
  posted r = ["needData"%string] /\
  output r = [silence; silence] /\
  output r <> [half; silence] /\
  output r <> [half].
Proof.
  simpl. repeat split; discriminate.
Qed.

Lemma pull_contract_witness :
  let this := {| buffer := [half; quarter; half]; position := 1 |} in
  cursor_in_range this /\
  output (pull 16000 this 3) = [silence; silence; silence] /\
  output (pull 16000 this 2) = [quarter; half].
Proof.
  intros this.
  assert (H : cursor_in_range this) by (unfold cursor_in_range; simpl; lia).
  destruct (pull_contract 16000 this 3 H) as [Hstarved _].
  destruct (pull_contract 16000 this 2 H) as [_ Hserved].
  split; [exact H|]. split.
  - rewrite Hstarved by (simpl; lia). reflexivity.
  - destruct Hserved as [Ho _]; [simpl; lia|]. rewrite Ho. reflexivity.
Defined.

Lemma append_then_pulls_witness :
  position constructor = length (buffer constructor) /\
  list_sum [1; 0; 2] = length [half; quarter; silence] /\
  (let '(final, blocks, msgs) :=
     run 16000 (onmessage constructor
                  {| type := "data"; audio := [half; quarter; silence] |})
         (map Pull [1; 0; 2]) in
   concat blocks = [half; quarter; silence] /\
   Forall2 (fun n block => length block = n) [1; 0; 2] blocks /\
   msgs = [] /\ unread final = []).
Proof.
  split; [reflexivity|]. split; [reflexivity|].
  exact (append_then_pulls 16000 constructor [half; quarter; silence]
                           [1; 0; 2] eq_refl eq_refl).
Defined.

Lemma underrun_keeps_samples_witness :
  let this := {| buffer := [half; quarter]; position := 1 |} in
  cursor_in_range this /\
  (Z.of_nat (length (buffer this)) - Z.of_nat (position this)
     < Z.of_nat (length [silence; silence]))%Z /\
  list_sum [2; 1] = length (unread this) + length [half; silence] /\
  next (process 16000 this [silence; silence]) = this.
Proof.
  intros this.
  assert (Hc : cursor_in_range this) by (unfold cursor_in_range; simpl; lia).
  assert (Hlt : (Z.of_nat (length (buffer this)) - Z.of_nat (position this)
                   < Z.of_nat (length [silence; silence]))%Z) by (simpl; lia).
  assert (Hs : list_sum [2; 1] = length (unread this) + length [half; silence])
    by reflexivity.
  split; [exact Hc|]. split; [exact Hlt|]. split; [exact Hs|].
  exact (proj1 (underrun_keeps_samples 16000 this [silence; silence]
                  [half; silence] [2; 1] Hc Hlt Hs)).
Defined.



End JitterBufferRuns.

(* ===================================================================== *)
(** * The PCM codec *)
(* ===================================================================== *)

Section Codec.

Import Content.

Lemma ToInt16_small (q : Q) :
  int16 (Js.trunc q) -> Js.ToInt16 (Js.Fin q) = Js.trunc q.
Proof.
  unfold int16, Js.ToInt16. intros H. cbv zeta.
  destruct (Z.leb_spec 32768 (Js.trunc q mod 65536)) as [Hge|Hlt];
    div_mod_lia.
Qed.

Lemma trunc_nonneg (n : Z) (d : positive) :
  (0 <= n)%Z -> Js.trunc (n # d) = Qfloor (n # d).
Proof. intros H. unfold Js.trunc; simpl. apply Z.quot_div_nonneg; lia. Qed.

Lemma trunc_nonpos (n : Z) (d : positive) :
  (n <= 0)%Z -> Js.trunc (n # d) = Qceiling (n # d).
Proof.
  intros H. unfold Js.trunc, Qceiling; simpl.
  replace n with (- - n)%Z at 1 by lia.
  rewrite Z.quot_opp_l by lia. f_equal. apply Z.quot_div_nonneg; lia.
Qed.

Lemma clamp_range (s : Q) : (-1 # 1 <= clamp s)%Q /\ (clamp s <= 1)%Q.
Proof.
  unfold clamp.
  destruct (Qle_bool 1 s) eqn:H1; [split; discriminate|].
  destruct (Qle_bool s (-1 # 1)) eqn:H2; [split; discriminate|].
  assert (~ (1 <= s)%Q) by (rewrite <- Qle_bool_iff, H1; discriminate).
  assert (~ (s <= -1 # 1)%Q) by (rewrite <- Qle_bool_iff, H2; discriminate).
  split; lra.
Qed.

Lemma clamp_inside (s : Q) : (-1 # 1 <= s)%Q -> (s <= 1)%Q -> (clamp s == s)%Q.
Proof.
  intros Hlo Hhi. unfold clamp.
  destruct (Qle_bool 1 s) eqn:H1.
  - apply Qle_bool_iff in H1. lra.
  - destruct (Qle_bool s (-1 # 1)) eqn:H2; [|reflexivity].
    apply Qle_bool_iff in H2. lra.
Qed.

(** The clamping done with [Math.max] and [Math.min]. *)
Lemma Math_clamp (s : Q) :
  Js.Math_max (Js.Fin (-1 # 1)) (Js.Math_min (Js.Fin 1) (Js.Fin s))
  = Js.Fin (clamp s).
Proof.
  unfold clamp, Js.Math_min, Js.Math_max, Js.lt.
  destruct (Qle_bool 1 s); simpl; [reflexivity|].
  destruct (Qle_bool s (-1 # 1)); reflexivity.
Qed.

(** Scaled clamped samples, as integers: bounds of the quotient. *)
Lemma scaled_floor (n : Z) (d : positive) :
  (0 <= n <= Z.pos d)%Z ->
  let v := (n * 32767 / Z.pos d)%Z in
  (0 <= v <= 32767 /\ v * Z.pos d <= n * 32767 < v * Z.pos d + Z.pos d)%Z.
Proof.
  intros H v. subst v.
  pose proof (Z.div_mod (n * 32767) (Z.pos d) ltac:(lia)) as E.
  pose proof (Z.mod_pos_bound (n * 32767) (Z.pos d) ltac:(lia)) as B.
  split; [split; [apply Z.div_pos; lia | apply Z.div_le_upper_bound; nia] | nia].
Qed.

Lemma scaled_ceiling (n : Z) (d : positive) :
  (- Z.pos d <= n <= 0)%Z ->
  let v := (- (- n * 32768 / Z.pos d))%Z in
  (-32768 <= v <= 0 /\ v * Z.pos d - Z.pos d < n * 32768 <= v * Z.pos d)%Z.
Proof.
  intros H v. subst v.
  pose proof (Z.div_mod (- n * 32768) (Z.pos d) ltac:(lia)) as E.
  pose proof (Z.mod_pos_bound (- n * 32768) (Z.pos d) ltac:(lia)) as B.
  assert (0 <= - n * 32768 / Z.pos d <= 32768)%Z
    by (split; [apply Z.div_pos; lia | apply Z.div_le_upper_bound; nia]).
  split; nia.
Qed.

Lemma clamp_num_den (s : Q) :
  (- Z.pos (Qden (clamp s)) <= Qnum (clamp s) <= Z.pos (Qden (clamp s)))%Z.
Proof.
  destruct (clamp_range s) as [Hlo Hhi].
  destruct (clamp s) as [n d]. unfold Qle in *; simpl in *. lia.
Qed.

(** What [floatToPcm16] stores for one finite sample. *)
Lemma quantize_sample (s : Q) :
  let c := Js.Math_max (Js.Fin (-1 # 1)) (Js.Math_min (Js.Fin 1) (Js.Fin s)) in
  Js.ToInt16 (if Js.lt c (Js.Fin 0)
              then Js.mul c (Js.Fin 32768) else Js.mul c (Js.Fin 32767))
  = quantize_toward_zero s /\
  int16 (quantize_toward_zero s).
Proof.
  intros c. subst c. rewrite Math_clamp. unfold quantize_toward_zero, Js.lt.
  pose proof (clamp_num_den s) as Hr.
  destruct (clamp s) as [n d]. simpl in Hr.
  destruct (Qle_bool 0 (n # d)) eqn:H0; simpl negb; cbv iota; unfold Js.mul.
  - apply Qle_bool_iff in H0. unfold Qle in H0; simpl in H0.
    assert (Hn : (0 <= n <= Z.pos d)%Z) by lia.
    destruct (scaled_floor n d Hn) as [Hv _].
    assert (E : Js.trunc ((n # d) * 32767) = Qfloor ((n # d) * 32767)).
    { unfold Qmult; cbn [Qnum Qden]. apply trunc_nonneg. lia. }
    assert (F : Qfloor ((n # d) * 32767) = (n * 32767 / Z.pos d)%Z).
    { unfold Qmult; cbn [Qnum Qden Qfloor]. rewrite Pos.mul_1_r. reflexivity. }
    rewrite ToInt16_small; rewrite E, F; [split; [reflexivity|] |];
      unfold int16; lia.
  - assert (Hneg : ~ (0 <= n # d)%Q) by (rewrite <- Qle_bool_iff, H0; discriminate).
    unfold Qle in Hneg; simpl in Hneg.
    assert (Hn : (- Z.pos d <= n <= 0)%Z) by lia.
    destruct (scaled_ceiling n d Hn) as [Hv _].
    assert (E : Js.trunc ((n # d) * 32768) = Qceiling ((n # d) * 32768)).
    { unfold Qmult; cbn [Qnum Qden]. apply trunc_nonpos. lia. }
    assert (F : Qceiling ((n # d) * 32768) = (- (- n * 32768 / Z.pos d))%Z).
    { unfold Qceiling, Qopp, Qmult; cbn [Qnum Qden Qfloor].
      rewrite Pos.mul_1_r. f_equal. f_equal. lia. }
    rewrite ToInt16_small; rewrite E, F; [split; [reflexivity|] |];
      unfold int16; lia.
Qed.

Lemma floatToPcm16_finite (frame : list Q) :
  floatToPcm16 (map Js.Fin frame) = map quantize_toward_zero frame.
Proof.
  unfold floatToPcm16. rewrite map_map. apply map_ext.
  intros s. apply quantize_sample.
Qed.

(** The samples that are not finite. *)
Lemma floatToPcm16_not_finite :
  floatToPcm16 [Js.NaN; Js.Inf false; Js.Inf true] = [0; 32767; -32768]%Z.
Proof. reflexivity. Qed.

(** The distance between a clamped sample and its quantised value divided
    by 32768. *)
Lemma quantize_error (s : Q) :
  let c := clamp s in
  let v := quantize_toward_zero s in
  ((0 <= c -> 0 <= c - (v # 32768) /\ c - (v # 32768) < 2 # 32768) /\
   (c <= 0 -> 0 <= (v # 32768) - c /\ (v # 32768) - c < 1 # 32768))%Q.
Proof.
  intros c v. subst c v. unfold quantize_toward_zero.
  pose proof (clamp_num_den s) as Hr.
  destruct (clamp s) as [n d]. simpl in Hr.
  destruct (Qle_bool 0 (n # d)) eqn:H0.
  - apply Qle_bool_iff in H0. unfold Qle in H0; simpl in H0.
    assert (Hn : (0 <= n <= Z.pos d)%Z) by lia.
    destruct (scaled_floor n d Hn) as [Hv Hq].
    assert (F : Qfloor ((n # d) * 32767) = (n * 32767 / Z.pos d)%Z).
    { unfold Qmult; cbn [Qnum Qden Qfloor]. rewrite Pos.mul_1_r. reflexivity. }
    rewrite F. set (v := (n * 32767 / Z.pos d)%Z) in *.
    split; intros Hc; unfold Qle, Qlt, Qminus, Qplus, Qopp in *;
      cbn [Qnum Qden] in *; rewrite ?Pos2Z.inj_mul in *; split; nia.
  - assert (Hneg : ~ (0 <= n # d)%Q) by (rewrite <- Qle_bool_iff, H0; discriminate).
    unfold Qle in Hneg; simpl in Hneg.
    assert (Hn : (- Z.pos d <= n <= 0)%Z) by lia.
    destruct (scaled_ceiling n d Hn) as [Hv Hq].
    assert (F : Qceiling ((n # d) * 32768) = (- (- n * 32768 / Z.pos d))%Z).
    { unfold Qceiling, Qopp, Qmult; cbn [Qnum Qden Qfloor].
      rewrite Pos.mul_1_r. f_equal. f_equal. lia. }
    rewrite F. set (v := (- (- n * 32768 / Z.pos d))%Z) in *.
    split; intros Hc; unfold Qle, Qlt, Qminus, Qplus, Qopp in *;
      cbn [Qnum Qden] in *; rewrite ?Pos2Z.inj_mul in *; split; nia.
Qed.

(** ** Decoding *)

Lemma pairs_ind (A : Type) (P : list A -> Prop) :
  P [] -> (forall a, P [a]) -> (forall a b l, P l -> P (a :: b :: l)) ->
  forall l, P l.
Proof.
  intros H0 H1 H2 l.
  enough (P l /\ forall a, P (a :: l)) by tauto.
  induction l as [|x l [IH1 IH2]]; split; auto.
Qed.

Lemma pcm16ToFloat_loop_shift (a b : Z) (dv : list Z) (count : nat) :
  forall i,
    pcm16ToFloat_loop (a :: b :: dv) (S i) count = pcm16ToFloat_loop dv i count.
Proof.
  induction count as [|count IH]; intros i; [reflexivity|].
  cbn [pcm16ToFloat_loop]. rewrite IH.
  change (S i * 2) with (S (S (i * 2))). reflexivity.
Qed.

Lemma half_SS (n : nat) : S (S n) / 2 = S (n / 2).
Proof.
  change (S (S n)) with (1 * 2 + n). rewrite Nat.div_add_l by lia. reflexivity.
Qed.

(** The loop of [pcm16ToFloat], two bytes at a time. *)
Lemma pcm16ToFloat_pair (lo hi : Z) (rest : list Z) :
  pcm16ToFloat (lo :: hi :: rest)
  = match pcm16ToFloat rest with
    | Some r => Some (Js.Fin (signed16 (lo + 256 * hi) # 32768) :: r)
    | None => None
    end.
Proof.
  unfold pcm16ToFloat.
  cbn [length]. rewrite half_SS.
  cbn [pcm16ToFloat_loop]. rewrite pcm16ToFloat_loop_shift. reflexivity.
Qed.

(** No read of the loop is out of range: [pcm16ToFloat] never throws, and
    it yields one sample per complete pair of bytes. *)
Lemma pcm16ToFloat_total (buffer : list Z) :
  exists float32,
    pcm16ToFloat buffer = Some float32 /\ length float32 = length buffer / 2.
Proof.
  induction buffer as [|a|a b l (f & Hf & Hl)] using pairs_ind.
  - exists []. split; reflexivity.
  - exists []. split; reflexivity.
  - rewrite pcm16ToFloat_pair, Hf. eexists; split; [reflexivity|].
    cbn [length]. rewrite Hl, half_SS. reflexivity.
Qed.

Lemma signed16_setInt16 (v : Z) :
  int16 v -> signed16 (v mod 256 + 256 * (v mod 65536 / 256)) = v.
Proof.
  unfold int16, signed16. intros H.
  destruct (Z.leb_spec 32768 (v mod 256 + 256 * (v mod 65536 / 256)));
    div_mod_lia.
Qed.

(** Reading back what [setInt16] wrote. *)
Lemma pcm16ToFloat_pcm16Bytes (pcm16 : list Z) :
  Forall int16 pcm16 ->
  pcm16ToFloat (pcm16Bytes pcm16)
  = Some (map (fun v => Js.Fin (v # 32768)) pcm16).
Proof.
  induction 1 as [|v l Hv _ IH]; [reflexivity|].
  unfold pcm16Bytes in *. cbn [flat_map setInt16 app].
  rewrite pcm16ToFloat_pair, IH, signed16_setInt16 by assumption.
  reflexivity.
Qed.

Lemma floatToPcm16_length (input : list Js.number) :
  length (floatToPcm16 input) = length input.
Proof. apply length_map. Qed.

(** C3 (amended). [floatToPcm16] maps each finite sample [s], after
    clamping to [-1, 1], to [s * 32767] truncated toward zero when
    [s >= 0] and to [s * 32768] truncated toward zero when [s < 0] (no
    rounding to nearest), and the PCM block has the length and the sample
    order of the input frame. *)
Theorem floatToPcm16_truncates (frame : list Q) :
  floatToPcm16 (map Js.Fin frame) = map quantize_toward_zero frame /\
  length (floatToPcm16 (map Js.Fin frame)) = length frame.
Proof.
  split; [apply floatToPcm16_finite|].
  rewrite floatToPcm16_length. apply length_map.
Qed.

(** C3, as stated, fails at the sample 1/4: the code stores 8191, the
    rounding rule gives 8192, and 8191 lies farther than 1/2 from the
    scaled sample 8191.75, so no rounding to nearest yields it. *)
Lemma floatToPcm16_does_not_round :
  floatToPcm16 [Js.Fin (1 # 4)] = [8191%Z] /\
  quantize_round (1 # 4) = 8192%Z /\
  (1 # 2 < Qabs (8191 - (1 # 4) * 32767))%Q.
Proof. repeat split. Qed.

(** C4 (amended). For every sample [s] in [-1, 1], quantising [s] and
    reading the two little-endian bytes back yields a sample that differs
    from [s] by less than 2/32768, and by less than 1/32768 when
    [s <= 0]. *)
Theorem loopback_error (s : Q) :
  (-1 # 1 <= s)%Q -> (s <= 1)%Q ->
  exists s' : Q,
    loopback s = Some [Js.Fin s'] /\
    (Qabs (s' - s) < 2 # 32768)%Q /\
    ((s <= 0)%Q -> (Qabs (s' - s) < 1 # 32768)%Q).
Proof.
  intros Hlo Hhi. exists (quantize_toward_zero s # 32768)%Q.
  pose proof (clamp_inside s Hlo Hhi) as Hc.
  destruct (quantize_error s) as [Hpos Hneg]. rewrite Hc in Hpos, Hneg.
  split; [|split].
  - unfold loopback. change [Js.Fin s] with (map Js.Fin [s]).
    rewrite floatToPcm16_finite. cbn [map].
    rewrite pcm16ToFloat_pcm16Bytes; [reflexivity|].
    constructor; [|constructor].
    pose proof (quantize_sample s) as H. cbv zeta in H. apply H.
  - apply Qabs_Qlt_condition.
    destruct (Qlt_le_dec s 0) as [H|H].
    + destruct Hneg as [H1 H2]; [lra|]. lra.
    + destruct Hpos as [H1 H2]; [lra|]. lra.
  - intros H. apply Qabs_Qlt_condition.
    destruct Hneg as [H1 H2]; [lra|]. lra.
Qed.

Lemma loopback_error_witness :
  (-1 # 1 <= 3 # 4)%Q /\ (3 # 4 <= 1)%Q /\
  exists s' : Q,
    loopback (3 # 4) = Some [Js.Fin s'] /\ (Qabs (s' - (3 # 4)) < 2 # 32768)%Q.
Proof.
  assert (Hlo : (-1 # 1 <= 3 # 4)%Q) by (unfold Qle; simpl; lia).
  assert (Hhi : (3 # 4 <= 1)%Q) by (unfold Qle; simpl; lia).
  split; [exact Hlo|]. split; [exact Hhi|].
  destruct (loopback_error (3 # 4) Hlo Hhi) as (s' & H1 & H2 & _).
  exists s'. split; assumption.
Defined.

(** C4, as stated, fails at the sample 65535/65536 = 1 - 2^-16: it is
    quantised to 32766 and read back as 32766/32768, which is 3/65536
    away, more than 1/32768. *)
Lemma loopback_error_exceeds_bound :
  (-1 # 1 <= 65535 # 65536)%Q /\ (65535 # 65536 <= 1)%Q /\
  loopback (65535 # 65536) = Some [Js.Fin (32766 # 32768)] /\
  ~ (Qabs ((32766 # 32768) - (65535 # 65536)) <= 1 # 32768)%Q.
Proof.
  split; [unfold Qle; simpl; lia|]. split; [unfold Qle; simpl; lia|].
  split; [reflexivity|].
  unfold Qle; simpl; lia.
Qed.

End Codec.

(* ===================================================================== *)
(** * Base64 *)
(* ===================================================================== *)

Section Base64Facts.

Import Base64.

Lemma is_byte_spec (b : Z) : is_byte b = true <-> byte b.
Proof. unfold is_byte, byte. rewrite andb_true_iff, !Z.leb_le. tauto. Qed.

Lemma sextet_cases (P : Z -> Prop) :
  (forall n, (n < 64)%nat -> P (Z.of_nat n)) -> forall v, sextet v -> P v.
Proof.
  intros H v Hv. unfold sextet in Hv.
  rewrite <- (Z2Nat.id v) by lia. apply H. lia.
Qed.

Lemma b64val_b64char (v : Z) : sextet v -> b64val (b64char v) = Some v.
Proof.
  revert v. apply sextet_cases. intros n Hn.
  below_64 n.
Qed.

Lemma b64char_not_whitespace (v : Z) :
  sextet v -> is_ascii_whitespace (b64char v) = false.
Proof.
  revert v. apply sextet_cases. intros n Hn.
  below_64 n.
Qed.

Lemma b64char_not_pad (v : Z) : sextet v -> is_pad (b64char v) = false.
Proof.
  revert v. apply sextet_cases. intros n Hn.
  below_64 n.
Qed.

(** The forgiving side of [atob]: padding and whitespace are optional,
    anything else outside the alphabet is an error. *)
Example btoa_Man : btoa [77; 97; 110]%Z = Some "TWFu"%string.
Proof. reflexivity. Qed.

Example btoa_padded : btoa [77; 97]%Z = Some "TWE="%string.
Proof. reflexivity. Qed.

Example atob_padded : atob "TWE=" = Some [77; 97]%Z.
Proof. reflexivity. Qed.

Example atob_unpadded : atob "TWE" = Some [77; 97]%Z.
Proof. reflexivity. Qed.

Example atob_whitespace : atob "T W E =" = Some [77; 97]%Z.
Proof. reflexivity. Qed.

Example atob_bad_length : atob "TWE=A" = None.
Proof. reflexivity. Qed.

Example atob_bad_character : atob "TW*=" = None.
Proof. reflexivity. Qed.

Lemma triples_ind (A : Type) (P : list A -> Prop) :
  P [] -> (forall a, P [a]) -> (forall a b, P [a; b]) ->
  (forall a b c l, P l -> P (a :: b :: c :: l)) ->
  forall l, P l.
Proof.
  intros H0 H1 H2 H3 l.
  enough (P l /\ (forall a, P (a :: l)) /\ (forall a b, P (a :: b :: l))) by tauto.
  induction l as [|x l (IH1 & IH2 & IH3)]; repeat split; auto.
Qed.

Lemma mod3_SSS (n : nat) : (S (S (S n)) mod 3 = n mod 3)%nat.
Proof.
  change (S (S (S n))) with (3 + n)%nat.
  rewrite Nat.add_comm. apply (Nat.Div0.mod_add n 1 3).
Qed.

Lemma mod4_SSSS (n : nat) : (S (S (S (S n))) mod 4 = n mod 4)%nat.
Proof.
  change (S (S (S (S n)))) with (4 + n)%nat.
  rewrite Nat.add_comm. apply (Nat.Div0.mod_add n 1 4).
Qed.

Lemma padding_SSS (n : nat) : padding (S (S (S n))) = padding n.
Proof. unfold padding. rewrite mod3_SSS. reflexivity. Qed.

(** Everything the decoder needs to know about the 6-bit values of a
    byte sequence. *)
Lemma sextets_facts (bytes : list Z) :
  Forall byte bytes ->
  octets (sextets bytes) = bytes /\
  Forall sextet (sextets bytes) /\
  ((length (sextets bytes) + length (padding (length bytes))) mod 4 = 0)%nat /\
  (length (sextets bytes) mod 4 <> 1)%nat /\
  (padding (length bytes) <> [] -> sextets bytes <> []).
Proof.
  unfold byte, sextet.
  induction bytes as [|a|a b|a b c l IH] using triples_ind; intros Hb.
  - repeat split; try constructor; simpl; try lia. intros H; contradiction.
  - inversion Hb as [|? ? Ha _]; subst. cbn [sextets octets].
    repeat split; try (intros; discriminate).
    + f_equal. div_mod_lia.
    + repeat constructor; div_mod_lia.
  - inversion Hb as [|? ? Ha Hb']; subst.
    inversion Hb' as [|? ? Hb2 _]; subst. cbn [sextets octets].
    repeat split; try (intros; discriminate).
    + f_equal; [|f_equal]; div_mod_lia.
    + repeat constructor; div_mod_lia.
  - inversion Hb as [|? ? Ha Hb1]; subst.
    inversion Hb1 as [|? ? Hb2 Hb3]; subst.
    inversion Hb3 as [|? ? Hc Hl]; subst.
    destruct (IH Hl) as (Ho & Hs & Hm & Hn & Hp).
    cbn [sextets octets length]. rewrite padding_SSS.
    repeat split; try (intros; discriminate).
    + rewrite Ho. f_equal; [|f_equal; [|f_equal]]; div_mod_lia.
    + repeat constructor; try assumption; div_mod_lia.
    + cbn [Nat.add]. rewrite mod4_SSSS. assumption.
    + rewrite mod4_SSSS. assumption.
Qed.

Lemma values_b64char (vs : list Z) :
  Forall sextet vs -> values (map b64char vs) = Some vs.
Proof.
  induction 1 as [|v l Hv _ IH]; [reflexivity|].
  cbn [map values]. rewrite b64val_b64char, IH by assumption. reflexivity.
Qed.

Lemma filter_b64char (vs : list Z) :
  Forall sextet vs ->
  filter (fun c => negb (is_ascii_whitespace c)) (map b64char vs)
  = map b64char vs.
Proof.
  induction 1 as [|v l Hv _ IH]; [reflexivity|].
  cbn [map filter]. rewrite b64char_not_whitespace, IH by assumption.
  reflexivity.
Qed.

Lemma remove_trailing_pad_snoc (l : list ascii) (c : ascii) :
  remove_trailing_pad (l ++ [c]) = if is_pad c then Some l else None.
Proof.
  unfold remove_trailing_pad. rewrite rev_app_distr. cbn [rev app].
  rewrite rev_involutive. reflexivity.
Qed.

Lemma remove_trailing_pad_b64char (vs : list Z) :
  Forall sextet vs -> remove_trailing_pad (map b64char vs) = None.
Proof.
  intros H. destruct (rev vs) as [|v r] eqn:E.
  - apply (f_equal (@rev Z)) in E. rewrite rev_involutive in E. subst.
    reflexivity.
  - apply (f_equal (@rev Z)) in E. rewrite rev_involutive in E. subst.
    cbn [rev]. rewrite map_app. cbn [map].
    rewrite remove_trailing_pad_snoc, b64char_not_pad; [reflexivity|].
    apply Forall_app in H. destruct H as [_ H]. inversion H; assumption.
Qed.

(** The padded text of [btoa], stripped by [atob]. *)
Lemma strip_padding_encoded (bytes : list Z) :
  Forall byte bytes ->
  strip_padding (map b64char (sextets bytes) ++ padding (length bytes))
  = map b64char (sextets bytes).
Proof.
  intros Hb. destruct (sextets_facts bytes Hb) as (_ & Hs & Hm & _ & _).
  unfold strip_padding. rewrite length_app, length_map, Hm. cbn [Nat.eqb].
  pose proof (remove_trailing_pad_b64char _ Hs) as Hnone.
  unfold padding. destruct (length bytes mod 3) as [|[|[|k]]].
  - rewrite app_nil_r, Hnone. reflexivity.
  - change ["="; "="]%char with (["="] ++ ["="])%char.
    rewrite app_assoc, remove_trailing_pad_snoc.
    change (is_pad "=") with true. cbv iota.
    rewrite remove_trailing_pad_snoc. reflexivity.
  - rewrite remove_trailing_pad_snoc.
    change (is_pad "=") with true. cbv iota. rewrite Hnone. reflexivity.
  - rewrite app_nil_r, Hnone. reflexivity.
Qed.

(** [atob] undoes [btoa] on every byte sequence. *)
Lemma atob_btoa (bytes : list Z) :
  Forall byte bytes ->
  exists text, btoa bytes = Some text /\ atob text = Some bytes.
Proof.
  intros Hb. destruct (sextets_facts bytes Hb) as (Ho & Hs & Hm & Hn & _).
  assert (Hf : forallb is_byte bytes = true).
  { apply forallb_forall. intros b Hin. apply is_byte_spec.
    rewrite Forall_forall in Hb. apply Hb; assumption. }
  unfold btoa. rewrite Hf. eexists; split; [reflexivity|].
  unfold atob. rewrite list_ascii_of_string_of_list_ascii.
  rewrite filter_app, filter_b64char by assumption.
  replace (filter (fun c => negb (is_ascii_whitespace c)) (padding (length bytes)))
    with (padding (length bytes))
    by (unfold padding; destruct (length bytes mod 3) as [|[|[|k]]]; reflexivity).
  rewrite strip_padding_encoded by assumption.
  rewrite length_map.
  destruct (Nat.eqb_spec (length (sextets bytes) mod 4) 1) as [E|_];
    [contradiction|].
  rewrite values_b64char, Ho by assumption. reflexivity.
Qed.

End Base64Facts.

(* ===================================================================== *)
(** * Capture and downlink handling *)
(* ===================================================================== *)

Section ContentFacts.

Import Content.
Import Base64 (byte).

Lemma ToInt16_range (x : Js.number) : int16 (Js.ToInt16 x).
Proof.
  unfold int16. destruct x as [q| |]; simpl; try lia.
  destruct (Z.leb_spec 32768 (Js.trunc q mod 65536));
    div_mod_lia.
Qed.

Lemma floatToPcm16_int16 (input : list Js.number) :
  Forall int16 (floatToPcm16 input).
Proof.
  unfold floatToPcm16. apply Forall_forall. intros v Hin.
  apply in_map_iff in Hin. destruct Hin as (x & <- & _). apply ToInt16_range.
Qed.

Lemma pcm16Bytes_byte (pcm16 : list Z) : Forall byte (pcm16Bytes pcm16).
Proof.
  unfold pcm16Bytes, byte.
  induction pcm16 as [|v l IH]; [constructor|].
  cbn [flat_map setInt16 app].
  constructor; [div_mod_lia|].
  constructor; [div_mod_lia | assumption].
Qed.

Lemma pcm16Bytes_length (pcm16 : list Z) :
  length (pcm16Bytes pcm16) = 2 * length pcm16.
Proof.
  unfold pcm16Bytes. induction pcm16 as [|v l IH]; [reflexivity|].
  cbn [flat_map setInt16 app length]. rewrite IH. lia.
Qed.

(** Reading the buffer back with [getInt16(index * 2, true)]. *)
Lemma getInt16_pcm16Bytes (pcm16 : list Z) :
  Forall int16 pcm16 ->
  map (fun index => getInt16 (pcm16Bytes pcm16) (index * 2))
      (seq 0 (length pcm16))
  = map Some pcm16.
Proof.
  unfold pcm16Bytes.
  induction 1 as [|v l Hv _ IH]; [reflexivity|].
  cbn [flat_map setInt16 app length]. rewrite <- cons_seq, <- seq_shift.
  cbn [map]. rewrite map_map. f_equal.
  - unfold getInt16; cbn [Nat.mul nth_error].
    rewrite signed16_setInt16 by assumption. reflexivity.
  - rewrite <- IH. apply map_ext. intros i. reflexivity.
Qed.

(** The block of [floatToPcm16], sample by sample, non-finite samples
    included. *)
Lemma floatToPcm16_pcm_value (input : list Js.number) :
  floatToPcm16 input = map pcm_value input.
Proof.
  unfold floatToPcm16. apply map_ext. intros x.
  destruct x as [s|negative|].
  - apply quantize_sample.
  - destruct negative; reflexivity.
  - reflexivity.
Qed.

(** [setInt16(offset, value, true)] writes the low byte first. *)
Lemma pcm16Bytes_little_endian (pcm16 : list Z) :
  pcm16Bytes pcm16 = flat_map little_endian pcm16.
Proof.
  unfold pcm16Bytes. induction pcm16 as [|v l IH]; [reflexivity|].
  cbn [flat_map]. rewrite IH. f_equal.
  unfold setInt16, little_endian. f_equal. f_equal. div_mod_lia.
Qed.

(** C9. For every captured frame, let the frame's PCM block hold, for each
    sample in order, the sample clamped to [-1, 1], scaled and truncated
    toward zero (NaN as 0), and let its bytes be the two's-complement
    bytes of each value, low byte first.  The callback builds the base64
    text of exactly these bytes: [atob] decodes the text back to them,
    there are two per sample, and reading them low byte first gives back
    the block.  When the socket exists and is OPEN the callback hands that
    text to [send], once, and changes nothing else; when there is no
    socket or it is not OPEN the component is left as it was.  In either
    case no exception escapes. *)
Theorem capture_sends_base64_pcm (st : state) (input : list Js.number) :
  let pcm16 := map pcm_value input in
  let bytes := flat_map little_endian pcm16 in
  exists base64 : string,
    floatToPcm16 input = pcm16 /\
    pcm16Bytes (floatToPcm16 input) = bytes /\
    Base64.btoa bytes = Some base64 /\
    Base64.atob base64 = Some bytes /\
    length bytes = 2 * length input /\
    map (fun index => getInt16 bytes (index * 2)) (seq 0 (length input))
    = map Some pcm16 /\
    (forall w : WebSocket,
        ws st = Some w -> ready w = OPEN ->
        onaudioprocess st input
        = Some {| messages := messages st; isTalking := isTalking st;
                  audioWorkletNode := audioWorkletNode st;
                  ws := Some {| ready := OPEN; sent := sent w ++ [base64] |};
                  console := console st |}) /\
    ((ws st = None \/ exists w, ws st = Some w /\ ready w <> OPEN) ->
     onaudioprocess st input = Some st).
Proof.
  intros pcm16 bytes.
  assert (Hpcm : floatToPcm16 input = pcm16) by apply floatToPcm16_pcm_value.
  assert (Hbytes : pcm16Bytes (floatToPcm16 input) = bytes)
    by (rewrite Hpcm; apply pcm16Bytes_little_endian).
  destruct (atob_btoa (pcm16Bytes (floatToPcm16 input)) (pcm16Bytes_byte _))
    as (base64 & He & Hd).
  exists base64. split; [exact Hpcm|]. split; [exact Hbytes|].
  rewrite <- Hbytes. split; [exact He|]. split; [exact Hd|].
  split; [|split; [|split]].
  - rewrite pcm16Bytes_length, floatToPcm16_length. reflexivity.
  - rewrite <- Hpcm, <- (floatToPcm16_length input).
    apply getInt16_pcm16Bytes, floatToPcm16_int16.
  - intros w Hw Hr. unfold onaudioprocess. rewrite He, Hw, Hr. reflexivity.
  - intros Hclosed. unfold onaudioprocess. rewrite He.
    destruct Hclosed as [Hnone | (w & Hw & Hr)].
    + rewrite Hnone. reflexivity.
    + rewrite Hw. destruct (ready w); try reflexivity. contradiction.
Qed.

(** ** The message handler *)

Lemma console_log_same (st : state) (line : string) :
  same_but_console (console_log st line) st.
Proof. repeat split. Qed.

(** The handler never reads the console. *)
Lemma ws_onmessage_same (closure : bool) (a b : state) (c : chunk) :
  same_but_console a b ->
  same_but_console (ws_onmessage closure a c) (ws_onmessage closure b c).
Proof.
  intros (Hm & Ht & Hn & Hw). unfold ws_onmessage, same_but_console.
  destruct (String.eqb (event c) "stop"); [simpl; rewrite Hm, Hn, Hw; tauto|].
  destruct (String.eqb (event c) "media").
  - destruct (Base64.atob (data c)) as [bytes|]; [|simpl; tauto].
    destruct (pcm16ToFloat bytes) as [float32Array|]; [|simpl; tauto].
    destruct (0 <? length float32Array); [|tauto].
    destruct closure; simpl; rewrite Hm, Hn, Hw; tauto.
  - destruct (String.eqb (event c) "text"); [simpl; rewrite Hm, Ht, Hn, Hw|];
      tauto.
Qed.

(** The 'stop' branch posts a message of type 'stop', which the processor
    does not handle; the 'clear' message it does handle is never posted. *)
Lemma stop_message_ignored (this : AudioProcessor.state) :
  AudioProcessor.onmessage this
    {| AudioProcessor.type := "stop"; AudioProcessor.audio := [] |} = this.
Proof. reflexivity. Qed.

Lemma ws_onmessage_stop (closure : bool) (st : state) (c : chunk) :
  event c = "stop"%string ->
  ws_onmessage closure st c
  = {| messages := messages st; isTalking := false;
       audioWorkletNode := audioWorkletNode st; ws := ws st;
       console := console st ++ ["Interruption"%string] |}.
Proof.
  intros E. unfold ws_onmessage. rewrite E. cbn [String.eqb Ascii.eqb].
  unfold setTalking, postMessage, console_log; simpl.
  destruct (audioWorkletNode st); reflexivity.
Qed.

(** C6 (amended). For every media envelope whose payload [atob] rejects,
    the handler logs an error and changes nothing else: the worklet buffer,
    the talking flag, the socket and the transcript stay as they were, and
    every later envelope is processed exactly as if the malformed one had
    not arrived. *)
Theorem malformed_media_dropped (closure : bool) (st : state) (c : chunk) :
  event c = "media"%string ->
  Base64.atob (data c) = None ->
  ws_onmessage closure st c = console_log st "Error processing audio data:" /\
  audioWorkletNode (ws_onmessage closure st c) = audioWorkletNode st /\
  isTalking (ws_onmessage closure st c) = isTalking st /\
  ws (ws_onmessage closure st c) = ws st /\
  forall later : chunk,
    same_but_console (ws_onmessage closure (ws_onmessage closure st c) later)
                     (ws_onmessage closure st later).
Proof.
  intros E H.
  assert (Hlog : ws_onmessage closure st c
                 = console_log st "Error processing audio data:").
  { unfold ws_onmessage. rewrite E, H. reflexivity. }
  rewrite Hlog. do 4 (split; [reflexivity|]).
  intros later. apply ws_onmessage_same, console_log_same.
Qed.

End ContentFacts.

(** ** Concrete sessions *)

Section Sessions.

Import Content Fixture.

(** C1, at a failing input: an engaged, talking session with two samples
    buffered receives the 'stop' envelope.  The talking flag becomes false,
    but the worklet keeps its buffer, and the next device quantum plays the
    two samples instead of finding the buffer empty. *)
Lemma stop_does_not_flush :
  let st := engaged true [half; quarter] in
  let st' := ws_onmessage false st (envelope "stop" "") in
  Active st /\
  isTalking st' = false /\
  audioWorkletNode st' = audioWorkletNode st /\
  snd (quantum st' 2) = [half; quarter] /\
  isTalking (fst (quantum st' 2)) = false.
Proof.
  intros st st'. split.
  - split; eexists; [split|]; reflexivity.
  - repeat split.
Qed.

(** C6, as stated, fails at the payload "AAAA": it decodes to three zero
    bytes, which is not a whole number of 16-bit samples, yet nothing is
    logged; the odd byte is dropped, one sample reaches the worklet buffer
    and the talking flag is raised. *)
Lemma odd_payload_is_truncated :
  let st := engaged false [] in
  let st' := ws_onmessage false st (envelope "media" "AAAA") in
  Base64.atob "AAAA" = Some [0; 0; 0]%Z /\
  console st' = [] /\
  audioWorkletNode st'
  = Some {| AudioProcessor.buffer := [Js.Fin (0 # 32768)];
            AudioProcessor.position := 0 |} /\
  isTalking st' = true.
Proof. repeat split. Qed.

(** A frame with a loud, a quiet, a clipped and an undefined sample, on an
    open socket and on a closing one. *)
Lemma capture_sends_base64_pcm_witness :
  let frame := [half; Js.Fin (-1 # 4); Js.Fin (3 # 1); Js.NaN] in
  let st := engaged false [] in
  let closing :=
    {| messages := []; isTalking := false; audioWorkletNode := None;
       ws := Some {| ready := CLOSING; sent := [] |}; console := [] |} in
  ws st = Some {| ready := OPEN; sent := [] |} /\
  (exists w, ws closing = Some w /\ ready w <> OPEN) /\
  map pcm_value frame = [16383; -8192; 32767; 0]%Z /\
  flat_map little_endian (map pcm_value frame)
  = [255; 63; 0; 224; 255; 127; 0; 0]%Z /\
  onaudioprocess closing frame = Some closing /\
  exists base64 : string,
    Base64.atob base64 = Some [255; 63; 0; 224; 255; 127; 0; 0]%Z /\
    onaudioprocess st frame
    = Some {| messages := []; isTalking := false;
              audioWorkletNode := audioWorkletNode st;
              ws := Some {| ready := OPEN; sent := [base64] |};
              console := [] |}.
Proof.
  intros frame st closing.
  assert (Hw : ws st = Some {| ready := OPEN; sent := [] |}) by reflexivity.
  assert (Hc : exists w, ws closing = Some w /\ ready w <> OPEN)
    by (eexists; split; [reflexivity | discriminate]).
  split; [exact Hw|]. split; [exact Hc|].
  split; [reflexivity|]. split; [reflexivity|].
  destruct (capture_sends_base64_pcm closing frame)
    as (_ & _ & _ & _ & _ & _ & _ & _ & Hstay).
  split; [exact (Hstay (or_intror Hc))|].
  destruct (capture_sends_base64_pcm st frame)
    as (base64 & _ & _ & _ & Hd & _ & _ & Hsend & _).
  exists base64. split; [exact Hd|]. exact (Hsend _ Hw eq_refl).
Defined.

Lemma malformed_media_dropped_witness :
  let st := engaged false [half] in
  let c := envelope "media" "A" in
  event c = "media"%string /\
  Base64.atob (data c) = None /\
  audioWorkletNode (ws_onmessage false st c) = audioWorkletNode st /\
  isTalking (ws_onmessage false st c) = isTalking st.
Proof.
  intros st c.
  assert (E : event c = "media"%string) by reflexivity.
  assert (H : Base64.atob (data c) = None) by reflexivity.
  split; [exact E|]. split; [exact H|].
  destruct (malformed_media_dropped false st c E H) as (_ & Hn & Ht & _).
  split; assumption.
Defined.

End Sessions.

(* ===================================================================== *)
(** * More on the jitter buffer *)
(* ===================================================================== *)

Section JitterBufferLaws.

Import AudioProcessor.

Variable sampleRate : Z.

Lemma firstn_plus (A : Type) (n m : nat) :
  forall l : list A, firstn (n + m) l = firstn n l ++ firstn m (skipn n l).
Proof.
  induction n as [|n IH]; intros l; [reflexivity|].
  destruct l as [|x l]; simpl.
  - rewrite firstn_nil. reflexivity.
  - f_equal. apply IH.
Qed.

(** A pull that finds enough unread samples, read on the queue. *)
Lemma pull_served (this : state) (n : nat) :
  cursor_in_range this -> n <= length (unread this) ->
  let r := pull sampleRate this n in
  output r = firstn n (unread this) /\
  unread (next r) = skipn n (unread this) /\
  posted r = [] /\
  cursor_in_range (next r).
Proof.
  intros Hc Hn r. subst r.
  destruct (step_queue sampleRate this (Pull n) Hc) as [Hc' Hq].
  cbn [step queue_step] in Hc', Hq.
  destruct (Nat.ltb_spec (length (unread this)) n) as [Hlt|_]; [lia|].
  injection Hq as Hu Ho Hp. repeat split; assumption.
Qed.

(** Two processors holding the same unread samples cannot be told apart:
    whatever the layout of their buffers, every run of operations hands
    out the same blocks, posts the same messages and leaves the same
    samples unread. *)
Theorem same_unread_same_run (a b : state) (ops : list op) :
  cursor_in_range a -> cursor_in_range b -> unread a = unread b ->
  let '(final_a, blocks_a, msgs_a) := run sampleRate a ops in
  let '(final_b, blocks_b, msgs_b) := run sampleRate b ops in
  blocks_a = blocks_b /\ msgs_a = msgs_b /\ unread final_a = unread final_b.
Proof.
  intros Ha Hb Hu.
  pose proof (run_queue sampleRate ops a Ha) as H1.
  pose proof (run_queue sampleRate ops b Hb) as H2.
  destruct (run sampleRate a ops) as [[final_a blocks_a] msgs_a].
  destruct (run sampleRate b ops) as [[final_b blocks_b] msgs_b].
  destruct H1 as [_ H1], H2 as [_ H2]. rewrite Hu, <- H2 in H1.
  inversion H1. repeat split; reflexivity.
Qed.

(** Two served pulls in a row hand out what a single pull of the combined
    size hands out, and leave the same samples unread. *)
Theorem pull_split (this : state) (n m : nat) :
  position this + n + m <= length (buffer this) ->
  let first := pull sampleRate this n in
  let second := pull sampleRate (next first) m in
  let both := pull sampleRate this (n + m) in
  output first ++ output second = output both /\
  unread (next second) = unread (next both) /\
  posted first = [] /\ posted second = [] /\ posted both = [].
Proof.
  intros H first second both.
  assert (Hc : cursor_in_range this) by (unfold cursor_in_range; lia).
  assert (Hl : length (unread this) = length (buffer this) - position this)
    by (apply unread_length; assumption).
  destruct (pull_served this n Hc ltac:(lia)) as (Ho1 & Hu1 & Hp1 & Hc1).
  destruct (pull_served (next first) m Hc1) as (Ho2 & Hu2 & Hp2 & _).
  { fold first in Hu1. rewrite Hu1, length_skipn. lia. }
  destruct (pull_served this (n + m) Hc ltac:(lia)) as (Ho & Hu & Hp & _).
  fold first in Ho1, Hu1, Hp1. fold second in Ho2, Hu2, Hp2.
  fold both in Ho, Hu, Hp.
  rewrite Ho1, Ho2, Ho, Hu2, Hu, Hu1, Hp1, Hp2, Hp, skipn_skipn, firstn_plus.
  rewrite (Nat.add_comm m n). repeat split; reflexivity.
Qed.

(** From the fresh processor, whatever operations arrive, the cursor
    stays within the buffer and never rests above [2 * sampleRate]: the
    consumed prefix kept in memory is bounded. *)
Theorem consumed_prefix_bounded (ops : list op) :
  (0 <= sampleRate)%Z ->
  let final := fst (fst (run sampleRate constructor ops)) in
  cursor_in_range final /\
  (Z.of_nat (position final) <= sampleRate * 2)%Z.
Proof.
  intros Hs.
  enough (G : forall this,
             cursor_in_range this ->
             (Z.of_nat (position this) <= sampleRate * 2)%Z ->
             cursor_in_range (fst (fst (run sampleRate this ops))) /\
             (Z.of_nat (position (fst (fst (run sampleRate this ops))))
                <= sampleRate * 2)%Z).
  { apply G; [unfold cursor_in_range; simpl; lia | simpl; lia]. }
  induction ops as [|o ops IH]; intros this Hc Hp; [split; assumption|].
  cbn [run].
  destruct (step_queue sampleRate this o Hc) as [Hc' _].
  pose proof (cursor_below_bound sampleRate this o Hs Hp) as Hp'.
  specialize (IH _ Hc' Hp').
  destruct (run sampleRate (next (step sampleRate this o)) ops)
    as [[final blocks] msgs].
  exact IH.
Qed.

(** A flush forgets everything, whatever the processor held: a pull of at
    least one sample right after it is starved, and after a fresh append
    the pulls hand out the new samples only. *)
Theorem flush_forgets (this : state) (n : nat) (samples : list Js.number)
        (sizes : list nat) :
  0 < n ->
  list_sum sizes = length samples ->
  let flushed := onmessage this {| type := "clear"; audio := [] |} in
  pull sampleRate flushed n
  = {| next := constructor; output := repeat (Js.Fin 0%Q) n;
       posted := ["needData"%string]; alive := true |} /\
  let '(final, blocks, msgs) :=
    run sampleRate flushed (Append samples :: map Pull sizes) in
  concat blocks = samples /\ msgs = [] /\ unread final = [].
Proof.
  intros Hn Hs flushed. subst flushed. rewrite onmessage_clear. split.
  - unfold pull. apply process_starved. rewrite repeat_length. simpl. lia.
  - assert (Hc : cursor_in_range constructor)
      by (unfold cursor_in_range; simpl; lia).
    pose proof (run_queue sampleRate (Append samples :: map Pull sizes)
                          constructor Hc) as Hr.
    destruct (run sampleRate constructor (Append samples :: map Pull sizes))
      as [[final blocks] msgs].
    destruct Hr as [_ Hr]. cbn [queue_run queue_step unread constructor
                                 position buffer skipn app] in Hr.
    destruct (queue_drain sizes samples Hs) as (Hq & Hcat & _).
    rewrite Hq in Hr. cbv beta iota in Hr. injection Hr as Hu Hb Hm.
    subst blocks msgs. repeat split; [exact Hcat | exact Hu].
Qed.

(** Audio arriving in two messages is buffered as if it had arrived in
    one, and a message without samples changes nothing. *)
Theorem appends_compose (this : state) (first second : list Js.number) :
  onmessage (onmessage this {| type := "data"; audio := first |})
            {| type := "data"; audio := second |}
  = onmessage this {| type := "data"; audio := first ++ second |} /\
  onmessage this {| type := "data"; audio := [] |} = this.
Proof.
  rewrite !onmessage_data. cbn [buffer position].
  rewrite app_assoc, app_nil_r. destruct this; split; reflexivity.
Qed.

Lemma queue_conservation (ops : list op) :
  forall u,
    Forall (fun o => o <> Flush) ops ->
    let '(final, blocks, msgs) := queue_run u ops in
    msgs = [] -> concat blocks ++ final = u ++ appended ops.
Proof.
  induction ops as [|o ops IH]; intros u Hf; cbn [queue_run].
  - intros _. simpl. rewrite app_nil_r. reflexivity.
  - inversion Hf as [|? ? Ho Hf']; subst.
    destruct o as [samples|n|]; [| |contradiction]; cbn [queue_step].
    + specialize (IH (u ++ samples) Hf').
      destruct (queue_run (u ++ samples) ops) as [[final blocks] msgs].
      intros Hm. cbn [concat app appended flat_map] in *.
      rewrite (IH Hm), <- app_assoc. reflexivity.
    + destruct (Nat.ltb_spec (length u) n) as [Hlt|Hge].
      * destruct (queue_run u ops) as [[final blocks] msgs].
        intros Hm. discriminate.
      * specialize (IH (skipn n u) Hf').
        destruct (queue_run (skipn n u) ops) as [[final blocks] msgs].
        intros Hm. cbn [concat app appended flat_map] in *.
        rewrite <- app_assoc, (IH Hm), app_assoc, firstn_skipn. reflexivity.
Qed.

(** In a run of appends and pulls in which no pull is starved, nothing is
    lost, repeated or reordered: the blocks handed out followed by what is
    still unread are the samples unread at the start followed by all the
    samples appended. *)
Theorem samples_conserved (this : state) (ops : list op) :
  cursor_in_range this ->
  Forall (fun o => o <> Flush) ops ->
  let '(final, blocks, msgs) := run sampleRate this ops in
  msgs = [] ->
  concat blocks ++ unread final = unread this ++ appended ops.
Proof.
  intros Hc Hf.
  pose proof (run_queue sampleRate ops this Hc) as Hr.
  pose proof (queue_conservation ops (unread this) Hf) as Hq.
  destruct (run sampleRate this ops) as [[final blocks] msgs].
  destruct Hr as [_ Hr]. rewrite <- Hr in Hq. exact Hq.
Qed.

End JitterBufferLaws.

(* ===================================================================== *)
(** * More on the PCM codec *)
(* ===================================================================== *)

(** Case analysis on every comparison [Qle_bool] of the goal. *)
Ltac qle_cases :=
  repeat match goal with
         | |- context [Qle_bool ?a ?b] =>
             let H := fresh "Hq" in
             destruct (Qle_bool a b) eqn:H;
             [apply Qle_bool_iff in H
             |apply not_true_iff_false in H; rewrite Qle_bool_iff in H]
         end.

Section CodecLaws.

Import Content.
Import Base64 (byte).

Lemma clamp_monotone (s t : Q) : (s <= t)%Q -> (clamp s <= clamp t)%Q.
Proof. intros H. unfold clamp. qle_cases; lra. Qed.

Lemma quantize_monotone (s t : Q) :
  (s <= t)%Q -> (quantize_toward_zero s <= quantize_toward_zero t)%Z.
Proof.
  intros H. apply clamp_monotone in H. unfold quantize_toward_zero.
  generalize dependent (clamp t). generalize (clamp s). intros cs ct H.
  qle_cases.
  - apply Qfloor_resp_le. lra.
  - lra.
  - transitivity 0%Z.
    + change 0%Z with (Qceiling 0). apply Qceiling_resp_le. lra.
    + change 0%Z with (Qfloor 0). apply Qfloor_resp_le. lra.
  - apply Qceiling_resp_le. lra.
Qed.

(** Quantisation keeps the order of samples: a frame that is pointwise at
    least another one is quantised to a block that is pointwise at least
    the other block. *)
Theorem floatToPcm16_monotone (xs ys : list Q) :
  Forall2 Qle xs ys ->
  Forall2 Z.le (floatToPcm16 (map Js.Fin xs)) (floatToPcm16 (map Js.Fin ys)).
Proof.
  intros H. rewrite !floatToPcm16_finite.
  induction H as [|s t xs ys Hst _ IH]; cbn [map]; constructor;
    [apply quantize_monotone; assumption | assumption].
Qed.

(** Samples at or beyond full scale saturate: everything from 1 upward is
    stored as 32767, everything from -1 downward as -32768; the 16-bit
    store never wraps around. *)
Theorem floatToPcm16_saturates (s : Q) :
  ((1 <= s)%Q -> floatToPcm16 [Js.Fin s] = [32767%Z]) /\
  ((s <= -1 # 1)%Q -> floatToPcm16 [Js.Fin s] = [(-32768)%Z]).
Proof.
  change [Js.Fin s] with (map Js.Fin [s]). rewrite floatToPcm16_finite.
  cbn [map]. unfold quantize_toward_zero, clamp.
  split; intros H; qle_cases; try lra; reflexivity.
Qed.

Lemma signed16_bytes (lo hi : Z) :
  byte lo -> byte hi -> int16 (signed16 (lo + 256 * hi)).
Proof.
  unfold byte, int16, signed16. intros Hlo Hhi.
  destruct (Z.leb_spec 32768 (lo + 256 * hi)); lia.
Qed.

Lemma pcm16ToFloat_unit_range (buffer : list Z) :
  Forall byte buffer ->
  exists float32 : list Js.number,
    pcm16ToFloat buffer = Some float32 /\
    length float32 = length buffer / 2 /\
    Forall (fun x => exists q : Q,
                x = Js.Fin q /\ (-1 # 1 <= q)%Q /\ (q < 1)%Q) float32.
Proof.
  induction buffer as [|a|lo hi l IH] using pairs_ind; intros Hb.
  - exists []. repeat split; constructor.
  - exists []. repeat split; constructor.
  - inversion Hb as [|? ? Hlo Hb']; subst.
    inversion Hb' as [|? ? Hhi Hl]; subst.
    destruct (IH Hl) as (f & Hf & Hlen & Hall).
    rewrite pcm16ToFloat_pair, Hf. eexists. split; [reflexivity|].
    split; [cbn [length]; rewrite Hlen, half_SS; reflexivity|].
    constructor; [|assumption].
    pose proof (signed16_bytes lo hi Hlo Hhi) as Hv. unfold int16 in Hv.
    eexists. split; [reflexivity|].
    revert Hv. generalize (signed16 (lo + 256 * hi)). intros v Hv.
    unfold Qle, Qlt; cbn [Qnum Qden]. lia.
Qed.

(** Every sample decoded from bytes lies in [-1, 1): the decoder yields one
    finite sample per complete pair of bytes and never reaches full
    positive scale. *)
Theorem pcm16ToFloat_range (buffer : list Z) :
  Forall byte buffer ->
  exists float32 : list Js.number,
    pcm16ToFloat buffer = Some float32 /\
    length float32 = length buffer / 2 /\
    Forall (fun x => exists q : Q,
                x = Js.Fin q /\ (-1 # 1 <= q)%Q /\ (q < 1)%Q) float32.
Proof. apply pcm16ToFloat_unit_range. Qed.

Lemma pcm16ToFloat_even_split (first second : list Z) :
  Nat.even (length first) = true ->
  exists a b : list Js.number,
    pcm16ToFloat first = Some a /\
    pcm16ToFloat second = Some b /\
    pcm16ToFloat (first ++ second) = Some (a ++ b).
Proof.
  induction first as [|x|lo hi l IH] using pairs_ind; intros He.
  - destruct (pcm16ToFloat_total second) as (b & Hb & _).
    exists [], b. repeat split; assumption.
  - discriminate.
  - cbn [length] in He. rewrite Nat.even_succ_succ in He.
    destruct (IH He) as (a & b & Ha & Hb & Hab).
    cbn [app]. rewrite !pcm16ToFloat_pair, Ha, Hab.
    eexists; exists b.
    split; [reflexivity|]. split; [assumption | reflexivity].
Qed.

(** Decoding commutes with cutting the byte stream at an even offset:
    audio split into two payloads on a sample boundary decodes to the
    same samples as the unsplit audio. *)
Theorem pcm16ToFloat_app (first second : list Z) :
  Nat.even (length first) = true ->
  exists a b : list Js.number,
    pcm16ToFloat first = Some a /\
    pcm16ToFloat second = Some b /\
    pcm16ToFloat (first ++ second) = Some (a ++ b).
Proof. apply pcm16ToFloat_even_split. Qed.

(** A byte left over after the last complete pair is dropped without any
    error. *)
Theorem pcm16ToFloat_odd_byte (buffer : list Z) (last : Z) :
  Nat.even (length buffer) = true ->
  pcm16ToFloat (buffer ++ [last]) = pcm16ToFloat buffer.
Proof.
  intros He.
  destruct (pcm16ToFloat_even_split buffer [last] He)
    as (a & b & Ha & Hb & Hab).
  rewrite Hab, Ha. injection Hb as <-. rewrite app_nil_r. reflexivity.
Qed.

(** Decoding the bytes written for a PCM block gives back every value of
    the block, divided by 32768, in order. *)
Theorem pcm16_bytes_round_trip (pcm16 : list Z) :
  Forall int16 pcm16 ->
  length (pcm16Bytes pcm16) = 2 * length pcm16 /\
  Forall byte (pcm16Bytes pcm16) /\
  pcm16ToFloat (pcm16Bytes pcm16)
  = Some (map (fun v => Js.Fin (v # 32768)) pcm16).
Proof.
  intros H. split; [apply pcm16Bytes_length|].
  split; [apply pcm16Bytes_byte | apply pcm16ToFloat_pcm16Bytes; assumption].
Qed.

Lemma requantize_sample (v : Z) :
  int16 v ->
  quantize_toward_zero (v # 32768) = if (0 <? v)%Z then (v - 1)%Z else v.
Proof.
  unfold int16. intros Hv. unfold quantize_toward_zero, clamp.
  destruct (Qle_bool 1 (v # 32768)) eqn:H1.
  { apply Qle_bool_iff in H1. unfold Qle in H1; simpl in H1. lia. }
  destruct (Qle_bool (v # 32768) (-1 # 1)) eqn:H2.
  { apply Qle_bool_iff in H2. unfold Qle in H2; simpl in H2.
    assert (v = (-32768)%Z) by lia. subst v. reflexivity. }
  destruct (Qle_bool 0 (v # 32768)) eqn:H3.
  - apply Qle_bool_iff in H3. unfold Qle in H3; simpl in H3.
    unfold Qmult, Qfloor; cbn [Qnum Qden].
    change (Z.pos (32768 * 1)) with 32768%Z.
    destruct (Z.ltb_spec 0 v); div_mod_lia.
  - apply not_true_iff_false in H3. rewrite Qle_bool_iff in H3.
    unfold Qle in H3; simpl in H3.
    unfold Qceiling, Qopp, Qmult, Qfloor; cbn [Qnum Qden].
    change (Z.pos (32768 * 1)) with 32768%Z.
    destruct (Z.ltb_spec 0 v); div_mod_lia.
Qed.

(** Quantising decoded audio again is not the identity: every positive
    PCM value comes back one step smaller, while zero and the negative
    values come back unchanged. *)
Theorem requantize_drifts (pcm16 : list Z) :
  Forall int16 pcm16 ->
  floatToPcm16 (map (fun v => Js.Fin (v # 32768)) pcm16)
  = map (fun v => if (0 <? v)%Z then (v - 1)%Z else v) pcm16.
Proof.
  intros H.
  rewrite <- (map_map (fun v => (v # 32768)%Q) Js.Fin), floatToPcm16_finite.
  rewrite map_map. induction H as [|v l Hv _ IH]; [reflexivity|].
  cbn [map]. rewrite requantize_sample, IH by assumption. reflexivity.
Qed.

End CodecLaws.

(* ===================================================================== *)
(** * More on the message handlers *)
(* ===================================================================== *)

Section ContentLaws.

Import Content.
Import Base64 (byte).

Lemma option_map_id (A : Type) (o : option A) : option_map (fun x => x) o = o.
Proof. destruct o; reflexivity. Qed.

(** No envelope can take audio away from the worklet: whatever arrives on
    the socket, the handler leaves the socket alone, keeps the read cursor
    where it is, and the worklet buffer afterwards starts with the buffer
    as it was. *)
Theorem downlink_never_discards (closure : bool) (st : state) (c : chunk) :
  ws (ws_onmessage closure st c) = ws st /\
  match audioWorkletNode st, audioWorkletNode (ws_onmessage closure st c) with
  | Some p, Some p' =>
      AudioProcessor.position p' = AudioProcessor.position p /\
      exists more, AudioProcessor.buffer p' = AudioProcessor.buffer p ++ more
  | None, None => True
  | _, _ => False
  end.
Proof.
  assert (Same : forall st' : state,
             ws st' = ws st -> audioWorkletNode st' = audioWorkletNode st ->
             ws st' = ws st /\
             match audioWorkletNode st, audioWorkletNode st' with
             | Some p, Some p' =>
                 AudioProcessor.position p' = AudioProcessor.position p /\
                 exists more,
                   AudioProcessor.buffer p' = AudioProcessor.buffer p ++ more
             | None, None => True
             | _, _ => False
             end).
  { intros st' Hw Hn. split; [assumption|]. rewrite Hn.
    destruct (audioWorkletNode st) as [p|]; [|exact I].
    split; [reflexivity|]. exists []. rewrite app_nil_r. reflexivity. }
  unfold ws_onmessage.
  destruct (String.eqb (event c) "stop").
  { apply Same; [reflexivity|]. simpl. apply option_map_id. }
  destruct (String.eqb (event c) "media");
    [|destruct (String.eqb (event c) "text"); apply Same; reflexivity].
  destruct (Base64.atob (data c)) as [bytes|]; [|apply Same; reflexivity].
  destruct (pcm16ToFloat bytes) as [float32Array|]; [|apply Same; reflexivity].
  destruct (0 <? length float32Array); [|apply Same; reflexivity].
  split; [destruct closure; reflexivity|].
  destruct (audioWorkletNode st) as [p|] eqn:Hn;
    destruct closure; simpl; rewrite Hn; simpl;
    try exact I; (split; [reflexivity|]); exists float32Array; reflexivity.
Qed.

Lemma ws_onmessage_messages (closure : bool) (st : state) (c : chunk) :
  messages (ws_onmessage closure st c)
  = messages st ++
    (if String.eqb (event c) "text"
     then [(String.eqb (speaker c) "user", data c)] else []).
Proof.
  unfold ws_onmessage.
  destruct (String.eqb_spec (event c) "stop") as [E|_].
  { rewrite E. simpl. rewrite app_nil_r. reflexivity. }
  destruct (String.eqb_spec (event c) "media") as [E|_].
  { rewrite E. cbn [String.eqb Ascii.eqb Bool.eqb]. rewrite app_nil_r.
    destruct (Base64.atob (data c)) as [bytes|]; [|reflexivity].
    destruct (pcm16ToFloat bytes) as [float32Array|]; [|reflexivity].
    destruct (0 <? length float32Array); [|reflexivity].
    destruct closure; reflexivity. }
  destruct (String.eqb (event c) "text"); [reflexivity|].
  rewrite app_nil_r. reflexivity.
Qed.

(** The transcript is the text envelopes in arrival order: after any
    sequence of envelopes, the messages shown are the earlier ones followed
    by one entry per 'text' envelope, in the order received, whatever
    media and stop envelopes came in between. *)
Theorem transcript_in_arrival_order (closure : bool) (cs : list chunk) :
  forall st : state,
    messages (fold_left (ws_onmessage closure) cs st)
    = messages st ++
      map (fun c => (String.eqb (speaker c) "user", data c))
          (filter (fun c => String.eqb (event c) "text") cs).
Proof.
  induction cs as [|c cs IH]; intros st; cbn [fold_left filter].
  - simpl. rewrite app_nil_r. reflexivity.
  - rewrite IH, ws_onmessage_messages.
    destruct (String.eqb (event c) "text"); cbn [map];
      rewrite <- app_assoc; reflexivity.
Qed.

(** A media envelope whose payload decodes to fewer than two bytes (the
    empty payload, a single byte) is dropped in silence: nothing is
    posted, nothing is logged, the talking flag stays. *)
Theorem short_media_ignored (closure : bool) (st : state) (c : chunk)
        (bytes : list Z) :
  event c = "media"%string ->
  Base64.atob (data c) = Some bytes ->
  length bytes < 2 ->
  ws_onmessage closure st c = st.
Proof.
  intros E Ha Hl. unfold ws_onmessage. rewrite E, Ha.
  cbn [String.eqb Ascii.eqb Bool.eqb].
  destruct bytes as [|a [|b l]]; [reflexivity | reflexivity|].
  cbn [length] in Hl. lia.
Qed.

(** What goes up comes down: the text sent for a non-empty captured frame,
    received back as a media envelope, appends to the worklet buffer
    exactly the frame's PCM values divided by 32768, in order, and raises
    the talking flag unless the handler was installed while it was up. *)
Theorem uplink_echo (closure : bool) (st : state) (w : WebSocket)
        (input : list Js.number) :
  ws st = Some w -> ready w = OPEN -> input <> [] ->
  exists base64 : string,
    onaudioprocess st input
    = Some {| messages := messages st; isTalking := isTalking st;
              audioWorkletNode := audioWorkletNode st;
              ws := Some {| ready := OPEN; sent := sent w ++ [base64] |};
              console := console st |} /\
    forall (receiver : state) (who : string),
      ws_onmessage closure receiver
                   {| event := "media"; data := base64; speaker := who |}
      = let posted :=
          postMessage receiver
            {| AudioProcessor.type := "data";
               AudioProcessor.audio :=
                 map (fun v => Js.Fin (v # 32768)) (floatToPcm16 input) |} in
        if closure then posted else setTalking posted true.
Proof.
  intros Hw Hr Hne.
  destruct (atob_btoa (pcm16Bytes (floatToPcm16 input))
                      (pcm16Bytes_byte _)) as (base64 & He & Hd).
  exists base64. split.
  - unfold onaudioprocess. rewrite He, Hw, Hr. reflexivity.
  - intros receiver who. unfold ws_onmessage. cbn [event data].
    cbn [String.eqb Ascii.eqb Bool.eqb]. rewrite Hd.
    rewrite pcm16ToFloat_pcm16Bytes by apply floatToPcm16_int16.
    rewrite length_map, floatToPcm16_length.
    destruct input as [|x input]; [contradiction|].
    cbn [length Nat.ltb Nat.leb]. destruct closure; reflexivity.
Qed.

(** One device quantum and the talking flag: a starved quantum plays
    silence, keeps the worklet as it was and lowers the flag; a served
    quantum plays the next unread samples and leaves the flag alone. *)
Theorem quantum_talking (st : state) (p : AudioProcessor.state) (n : nat) :
  audioWorkletNode st = Some p ->
  AudioProcessor.cursor_in_range p ->
  (length (AudioProcessor.unread p) < n ->
     isTalking (fst (quantum st n)) = false /\
     audioWorkletNode (fst (quantum st n)) = Some p /\
     snd (quantum st n) = repeat (Js.Fin 0%Q) n) /\
  (n <= length (AudioProcessor.unread p) ->
     isTalking (fst (quantum st n)) = isTalking st /\
     snd (quantum st n) = firstn n (AudioProcessor.unread p) /\
     exists p', audioWorkletNode (fst (quantum st n)) = Some p' /\
                AudioProcessor.unread p' = skipn n (AudioProcessor.unread p)).
Proof.
  intros Hn Hc. unfold quantum. rewrite Hn.
  pose proof (unread_length p Hc) as Hl.
  unfold AudioProcessor.cursor_in_range in Hc.
  split; intros H.
  - unfold AudioProcessor.pull. rewrite process_starved
      by (rewrite repeat_length; lia).
    repeat split.
  - destruct (pull_served SAMPLE_RATE p n) as (Ho & Hu & Hp & _);
      [exact Hc | exact H |].
    rewrite Hp, Ho. cbn [fold_left fst snd isTalking audioWorkletNode].
    repeat split. eexists; split; [reflexivity | exact Hu].
Qed.

End ContentLaws.

(* ===================================================================== *)
(** * Concrete instances of the laws *)
(* ===================================================================== *)

Section LawInstances.

Import AudioProcessor Content Fixture.
Import Base64 (byte).

Lemma same_unread_same_run_witness :
  let a := {| buffer := [half; quarter; silence]; position := 1 |} in
  let b := {| buffer := [quarter; silence]; position := 0 |} in
  cursor_in_range a /\ cursor_in_range b /\ unread a = unread b /\
  snd (fst (run 16000 a [Pull 1; Append [half]; Pull 3; Pull 2]))
  = snd (fst (run 16000 b [Pull 1; Append [half]; Pull 3; Pull 2])).
Proof.
  intros a b.
  assert (Ha : cursor_in_range a) by (unfold cursor_in_range; simpl; lia).
  assert (Hb : cursor_in_range b) by (unfold cursor_in_range; simpl; lia).
  assert (Hu : unread a = unread b) by reflexivity.
  split; [exact Ha|]. split; [exact Hb|]. split; [exact Hu|].
  pose proof (same_unread_same_run 16000 a b
                [Pull 1; Append [half]; Pull 3; Pull 2] Ha Hb Hu) as H.
  destruct (run 16000 a [Pull 1; Append [half]; Pull 3; Pull 2])
    as [[fa ba] ma].
  destruct (run 16000 b [Pull 1; Append [half]; Pull 3; Pull 2])
    as [[fb bb] mb].
  exact (proj1 H).
Defined.

Lemma pull_split_witness :
  let this := {| buffer := [half; quarter; silence; half]; position := 1 |} in
  position this + 1 + 2 <= length (buffer this) /\
  output (pull 16000 this 1) ++ output (pull 16000 (next (pull 16000 this 1)) 2)
  = output (pull 16000 this (1 + 2)).
Proof.
  intros this.
  assert (H : position this + 1 + 2 <= length (buffer this)) by (simpl; lia).
  split; [exact H|]. exact (proj1 (pull_split 16000 this 1 2 H)).
Defined.

Lemma consumed_prefix_bounded_witness :
  (0 <= 16000)%Z /\
  (Z.of_nat
     (position (fst (fst (run 16000 constructor
                              [Append [half; quarter]; Pull 1; Flush; Pull 4]))))
   <= 16000 * 2)%Z.
Proof.
  assert (H : (0 <= 16000)%Z) by lia.
  split; [exact H|].
  exact (proj2 (consumed_prefix_bounded 16000
                  [Append [half; quarter]; Pull 1; Flush; Pull 4] H)).
Defined.

Lemma flush_forgets_witness :
  let this := {| buffer := [half; half; half]; position := 1 |} in
  0 < 2 /\ list_sum [1; 1] = length [quarter; silence] /\
  pull 16000 (onmessage this {| type := "clear"; audio := [] |}) 2
  = {| next := constructor; output := repeat (Js.Fin 0%Q) 2;
       posted := ["needData"%string]; alive := true |}.
Proof.
  intros this.
  assert (Hn : 0 < 2) by lia.
  assert (Hs : list_sum [1; 1] = length [quarter; silence]) by reflexivity.
  split; [exact Hn|]. split; [exact Hs|].
  exact (proj1 (flush_forgets 16000 this 2 [quarter; silence] [1; 1] Hn Hs)).
Defined.

Lemma samples_conserved_witness :
  let this := {| buffer := [half; quarter]; position := 1 |} in
  let ops := [Pull 1; Append [silence; half]; Pull 1; Append [quarter]] in
  cursor_in_range this /\
  Forall (fun o => o <> Flush) ops /\
  snd (run 16000 this ops) = [] /\
  concat (snd (fst (run 16000 this ops)))
    ++ unread (fst (fst (run 16000 this ops)))
  = unread this ++ appended ops.
Proof.
  intros this ops.
  assert (Hc : cursor_in_range this) by (unfold cursor_in_range; simpl; lia).
  assert (Hf : Forall (fun o => o <> Flush) ops)
    by (repeat constructor; discriminate).
  assert (Hm : snd (run 16000 this ops) = []) by reflexivity.
  split; [exact Hc|]. split; [exact Hf|]. split; [exact Hm|].
  pose proof (samples_conserved 16000 this ops Hc Hf) as H.
  destruct (run 16000 this ops) as [[final blocks] msgs].
  exact (H Hm).
Defined.

Lemma floatToPcm16_monotone_witness :
  Forall2 Qle [(-1 # 2)%Q; (1 # 4)%Q] [(-1 # 4)%Q; (3 # 4)%Q] /\
  Forall2 Z.le (floatToPcm16 [Js.Fin (-1 # 2); Js.Fin (1 # 4)])
               (floatToPcm16 [Js.Fin (-1 # 4); Js.Fin (3 # 4)]).
Proof.
  assert (H : Forall2 Qle [(-1 # 2)%Q; (1 # 4)%Q] [(-1 # 4)%Q; (3 # 4)%Q])
    by (repeat constructor; unfold Qle; simpl; lia).
  split; [exact H|]. exact (floatToPcm16_monotone _ _ H).
Defined.

Lemma floatToPcm16_saturates_witness :
  (1 <= 3 # 2)%Q /\ (-5 # 1 <= -1 # 1)%Q /\
  floatToPcm16 [Js.Fin (3 # 2)] = [32767%Z] /\
  floatToPcm16 [Js.Fin (-5 # 1)] = [(-32768)%Z].
Proof.
  assert (Hhi : (1 <= 3 # 2)%Q) by (unfold Qle; simpl; lia).
  assert (Hlo : (-5 # 1 <= -1 # 1)%Q) by (unfold Qle; simpl; lia).
  split; [exact Hhi|]. split; [exact Hlo|]. split.
  - exact (proj1 (floatToPcm16_saturates (3 # 2)) Hhi).
  - exact (proj2 (floatToPcm16_saturates (-5 # 1)) Hlo).
Defined.

Lemma pcm16ToFloat_range_witness :
  Forall byte [0; 128; 255; 127; 7]%Z /\
  exists float32 : list Js.number,
    pcm16ToFloat [0; 128; 255; 127; 7]%Z = Some float32 /\
    length float32 = 2.
Proof.
  assert (H : Forall byte [0; 128; 255; 127; 7]%Z)
    by (repeat constructor; unfold byte; lia).
  split; [exact H|].
  destruct (pcm16ToFloat_range _ H) as (f & Hf & Hl & _).
  exists f. split; [exact Hf | exact Hl].
Defined.

Lemma pcm16ToFloat_app_witness :
  Nat.even (length [1; 2; 3; 4]%Z) = true /\
  exists a b : list Js.number,
    pcm16ToFloat [1; 2; 3; 4]%Z = Some a /\
    pcm16ToFloat [5; 6; 7]%Z = Some b /\
    pcm16ToFloat ([1; 2; 3; 4] ++ [5; 6; 7])%Z = Some (a ++ b).
Proof.
  split; [reflexivity|].
  exact (pcm16ToFloat_app [1; 2; 3; 4]%Z [5; 6; 7]%Z eq_refl).
Defined.

Lemma pcm16ToFloat_odd_byte_witness :
  Nat.even (length [1; 2; 3; 4]%Z) = true /\
  pcm16ToFloat ([1; 2; 3; 4] ++ [9])%Z = pcm16ToFloat [1; 2; 3; 4]%Z.
Proof.
  split; [reflexivity|].
  exact (pcm16ToFloat_odd_byte [1; 2; 3; 4]%Z 9%Z eq_refl).
Defined.

Lemma pcm16_bytes_round_trip_witness :
  Forall int16 [-32768; -1; 0; 258; 32767]%Z /\
  pcm16ToFloat (pcm16Bytes [-32768; -1; 0; 258; 32767]%Z)
  = Some (map (fun v => Js.Fin (v # 32768)) [-32768; -1; 0; 258; 32767]%Z).
Proof.
  assert (H : Forall int16 [-32768; -1; 0; 258; 32767]%Z)
    by (repeat constructor; unfold int16; lia).
  split; [exact H|].
  exact (proj2 (proj2 (pcm16_bytes_round_trip _ H))).
Defined.

Lemma requantize_drifts_witness :
  Forall int16 [-32768; -1; 0; 1; 32767]%Z /\
  floatToPcm16 (map (fun v => Js.Fin (v # 32768)) [-32768; -1; 0; 1; 32767]%Z)
  = [-32768; -1; 0; 0; 32766]%Z.
Proof.
  assert (H : Forall int16 [-32768; -1; 0; 1; 32767]%Z)
    by (repeat constructor; unfold int16; lia).
  split; [exact H|].
  exact (requantize_drifts _ H).
Defined.

Lemma short_media_ignored_witness :
  let st := engaged true [half] in
  let c := envelope "media" "AA" in
  event c = "media"%string /\
  Base64.atob (data c) = Some [0%Z] /\
  length [0%Z] < 2 /\
  ws_onmessage false st c = st.
Proof.
  intros st c.
  assert (E : event c = "media"%string) by reflexivity.
  assert (Ha : Base64.atob (data c) = Some [0%Z]) by reflexivity.
  assert (Hl : length [0%Z] < 2) by (simpl; lia).
  split; [exact E|]. split; [exact Ha|]. split; [exact Hl|].
  exact (short_media_ignored false st c [0%Z] E Ha Hl).
Defined.

Lemma uplink_echo_witness :
  let st := engaged false [] in
  ws st = Some {| ready := OPEN; sent := [] |} /\
  [half; Js.NaN] <> [] /\
  exists base64 : string,
    onaudioprocess st [half; Js.NaN]
    = Some {| messages := messages st; isTalking := isTalking st;
              audioWorkletNode := audioWorkletNode st;
              ws := Some {| ready := OPEN; sent := [] ++ [base64] |};
              console := console st |}.
Proof.
  intros st.
  assert (Hw : ws st = Some {| ready := OPEN; sent := [] |}) by reflexivity.
  assert (Hne : [half; Js.NaN] <> []) by discriminate.
  split; [exact Hw|]. split; [exact Hne|].
  destruct (uplink_echo false st _ [half; Js.NaN] Hw eq_refl Hne)
    as (base64 & H & _).
  exists base64. exact H.
Defined.

Lemma quantum_talking_witness :
  let p := {| buffer := [half; quarter]; position := 0 |} in
  let st := engaged true [half; quarter] in
  audioWorkletNode st = Some p /\
  cursor_in_range p /\
  isTalking (fst (quantum st 3)) = false /\
  snd (quantum st 2) = [half; quarter].
Proof.
  intros p st.
  assert (Hn : audioWorkletNode st = Some p) by reflexivity.
  assert (Hc : cursor_in_range p) by (unfold cursor_in_range; simpl; lia).
  split; [exact Hn|]. split; [exact Hc|].
  destruct (quantum_talking st p 3 Hn Hc) as [Hstarved _].
  destruct (quantum_talking st p 2 Hn Hc) as [_ Hserved].
  split.
  - exact (proj1 (Hstarved ltac:(simpl; lia))).
  - exact (proj1 (proj2 (Hserved ltac:(simpl; lia)))).
Defined.

End LawInstances.

(* ===================================================================== *)
(** * The wire: sizes and ranges *)
(* ===================================================================== *)

Section Wire.

Import Content.
Import Base64.

Lemma quads_ind (A : Type) (P : list A -> Prop) :
  P [] -> (forall a, P [a]) -> (forall a b, P [a; b]) ->
  (forall a b c, P [a; b; c]) ->
  (forall a b c d l, P l -> P (a :: b :: c :: d :: l)) ->
  forall l, P l.
Proof.
  intros H0 H1 H2 H3 H4 l.
  enough (P l /\ (forall a, P (a :: l)) /\ (forall a b, P (a :: b :: l)) /\
          (forall a b c, P (a :: b :: c :: l))) by tauto.
  induction l as [|x l (IH1 & IH2 & IH3 & IH4)]; repeat split; auto.
Qed.

Lemma b64val_sextet (c : ascii) (v : Z) : b64val c = Some v -> sextet v.
Proof.
  unfold b64val, sextet. generalize (Z.of_N (N_of_ascii c)). intros n.
  repeat match goal with
         | |- context [(?a <=? ?b)%Z] => destruct (Z.leb_spec a b)
         | |- context [(?a =? ?b)%Z] => destruct (Z.eqb_spec a b)
         end; cbn [andb]; intros Hsome; try discriminate;
    injection Hsome as <-; lia.
Qed.

Lemma values_sextet (data : list ascii) :
  forall vs, values data = Some vs -> Forall sextet vs.
Proof.
  induction data as [|c data IH]; intros vs H; cbn [values] in H.
  - injection H as <-. constructor.
  - destruct (b64val c) as [v|] eqn:Hv; [|discriminate].
    destruct (values data) as [vs'|]; [|discriminate].
    injection H as <-. constructor; [eapply b64val_sextet; eassumption|].
    apply IH. reflexivity.
Qed.

Lemma octets_byte (vs : list Z) : Forall sextet vs -> Forall byte (octets vs).
Proof.
  unfold sextet, byte.
  induction vs as [|a|a b|a b c|a b c d l IH] using quads_ind; intros H;
    cbn [octets];
    repeat match goal with
           | H : Forall _ (_ :: _) |- _ => inversion H; clear H; subst
           end;
    repeat (constructor; [div_mod_lia|]); try constructor.
  apply IH; assumption.
Qed.

(** Whatever text [atob] accepts, it yields bytes. *)
Lemma atob_byte (text : string) (bytes : list Z) :
  atob text = Some bytes -> Forall byte bytes.
Proof.
  unfold atob. intros H.
  destruct (length _ mod 4 =? 1); [discriminate|].
  destruct (values _) as [vs|] eqn:Hv; [|discriminate].
  injection H as <-. apply octets_byte. eapply values_sextet. eassumption.
Qed.

(** Every sample the downlink handler ever hands to the worklet is a
    finite number in [-1, 1): whatever the envelope, the worklet buffer
    afterwards is the buffer as it was followed by such samples, with the
    cursor unmoved. *)
Theorem downlink_samples_in_range (closure : bool) (st : state) (c : chunk)
        (p : AudioProcessor.state) :
  audioWorkletNode st = Some p ->
  exists (p' : AudioProcessor.state) (more : list Js.number),
    audioWorkletNode (ws_onmessage closure st c) = Some p' /\
    AudioProcessor.buffer p' = AudioProcessor.buffer p ++ more /\
    AudioProcessor.position p' = AudioProcessor.position p /\
    Forall (fun x => exists q : Q,
                x = Js.Fin q /\ (-1 # 1 <= q)%Q /\ (q < 1)%Q) more.
Proof.
  intros Hn.
  assert (Same : forall st' : state,
             audioWorkletNode st' = Some p ->
             exists (p' : AudioProcessor.state) (more : list Js.number),
               audioWorkletNode st' = Some p' /\
               AudioProcessor.buffer p' = AudioProcessor.buffer p ++ more /\
               AudioProcessor.position p' = AudioProcessor.position p /\
               Forall (fun x => exists q : Q,
                           x = Js.Fin q /\ (-1 # 1 <= q)%Q /\ (q < 1)%Q) more).
  { intros st' H. exists p, []. rewrite app_nil_r.
    repeat split; [assumption | constructor]. }
  unfold ws_onmessage.
  destruct (String.eqb (event c) "stop").
  { apply Same. simpl. rewrite Hn. reflexivity. }
  destruct (String.eqb (event c) "media");
    [|destruct (String.eqb (event c) "text"); apply Same; assumption].
  destruct (atob (data c)) as [bytes|] eqn:Ha; [|apply Same; assumption].
  destruct (pcm16ToFloat_unit_range bytes (atob_byte _ _ Ha))
    as (float32 & Hf & _ & Hall).
  rewrite Hf.
  destruct (0 <? length float32); [|apply Same; assumption].
  eexists; exists float32.
  split; [destruct closure; simpl; rewrite Hn; reflexivity|].
  repeat split; assumption.
Qed.

Lemma string_of_list_ascii_length (l : list ascii) :
  String.length (string_of_list_ascii l) = length l.
Proof. induction l as [|c l IH]; simpl; [|rewrite IH]; reflexivity. Qed.

Lemma third_SSS (n : nat) : (S (S (S n)) + 2) / 3 = S ((n + 2) / 3).
Proof.
  replace (S (S (S n)) + 2) with (1 * 3 + (n + 2)) by lia.
  rewrite Nat.div_add_l by lia. reflexivity.
Qed.

Lemma encoded_length (bytes : list Z) :
  length (sextets bytes) + length (padding (length bytes))
  = 4 * ((length bytes + 2) / 3).
Proof.
  induction bytes as [|a|a b|a b c l IH] using triples_ind;
    try reflexivity.
  cbn [sextets length]. rewrite padding_SSS, third_SSS.
  cbn [Nat.add]. rewrite IH. lia.
Qed.

(** The size of an uplink message: for a frame of [n] samples the text
    handed to [send] has [4 * ceil(2n / 3)] characters (10924 for the 4096
    samples of a capture frame; the empty text for an empty frame). *)
Theorem uplink_message_length (st : state) (w : WebSocket)
        (input : list Js.number) :
  ws st = Some w -> ready w = OPEN ->
  exists (st' : state) (base64 : string),
    onaudioprocess st input = Some st' /\
    ws st' = Some {| ready := OPEN; sent := sent w ++ [base64] |} /\
    String.length base64 = 4 * ((2 * length input + 2) / 3).
Proof.
  intros Hw Hr. unfold onaudioprocess, btoa.
  assert (Hf : forallb is_byte (pcm16Bytes (floatToPcm16 input)) = true).
  { apply forallb_forall. intros b Hin. apply is_byte_spec.
    pose proof (pcm16Bytes_byte (floatToPcm16 input)) as Hb.
    rewrite Forall_forall in Hb. apply Hb; assumption. }
  rewrite Hf, Hw, Hr. cbn [is_OPEN].
  eexists; eexists. split; [reflexivity|]. split; [reflexivity|].
  rewrite string_of_list_ascii_length, length_app, length_map, encoded_length.
  rewrite pcm16Bytes_length, floatToPcm16_length. reflexivity.
Qed.

End Wire.

Section WireInstances.

Import Content Fixture.

Lemma downlink_samples_in_range_witness :
  let st := engaged false [half] in
  let p := {| AudioProcessor.buffer := [half]; AudioProcessor.position := 0 |} in
  audioWorkletNode st = Some p /\
  exists (p' : AudioProcessor.state) (more : list Js.number),
    audioWorkletNode (ws_onmessage false st (envelope "media" "AIA=")) = Some p' /\
    AudioProcessor.buffer p' = AudioProcessor.buffer p ++ more.
Proof.
  intros st p.
  assert (Hn : audioWorkletNode st = Some p) by reflexivity.
  split; [exact Hn|].
  destruct (downlink_samples_in_range false st (envelope "media" "AIA=") p Hn)
    as (p' & more & H1 & H2 & _).
  exists p', more. split; [exact H1 | exact H2].
Defined.

Lemma uplink_message_length_witness :
  let st := engaged false [] in
  ws st = Some {| ready := OPEN; sent := [] |} /\
  exists (st' : state) (base64 : string),
    onaudioprocess st [half; quarter] = Some st' /\
    ws st' = Some {| ready := OPEN; sent := [] ++ [base64] |} /\
    String.length base64 = 4 * ((2 * length [half; quarter] + 2) / 3).
Proof.
  intros st.
  assert (Hw : ws st = Some {| ready := OPEN; sent := [] |}) by reflexivity.
  split; [exact Hw|].
  exact (uplink_message_length st _ [half; quarter] Hw eq_refl).
Defined.

End WireInstances.
